(** * Share-Me: relay server and chunked file transfer

    A shallow embedding of [server.js] (rate limiter, room registry, relay
    handlers, periodic sweep), of the transfer pipelines of
    [public/app-fast.js] ([sendFile], [handleFileInfo], [handleFileChunk],
    [handleFileComplete]), of the HTTP layers of [server.js] and of the route
    of [health-endpoint-addition.js].

    Conventions.  JavaScript strings that only ever hold characters below
    256 (binary strings, base64 text, room codes, socket ids) are [string];
    a [Uint8Array] and the contents of a [File] are [list byte]; integral
    JavaScript numbers (sizes, offsets, millisecond timestamps) are [Z];
    a [Map] is a [gmap], a [Set] a [gset]; a JavaScript array with holes is
    a [list (option _)].  Handlers are state transformers that also return
    the list of events they emit. *)

From Stdlib Require Import ZArith QArith Qround Lqa Ascii String.
From Stdlib.Strings Require Import Byte.
From stdpp Require Import gmap strings list fin_maps pretty.
From Equations Require Import Equations.

Local Open Scope Z_scope.
Set Warnings "-clear-no-such-hyp".

(** ** Browser and language primitives *)

Module JS.

(** *** [btoa] and [atob]

    RFC 4648 base64 as the HTML standard prescribes it for [btoa], and
    the standard's forgiving decoder for [atob]. *)

Definition base64_alphabet : list ascii :=
  list_ascii_of_string
    "ABCDEFGHIJKLMNOPQRSTUVWXYZabcdefghijklmnopqrstuvwxyz0123456789+/".

(** A 6-bit group, written most significant bit first and kept as a
    character code below 64. *)
Definition sextet (m5 m4 m3 m2 m1 m0 : bool) : ascii :=
  Ascii m0 m1 m2 m3 m4 m5 false false.

Definition base64_char (s : ascii) : ascii :=
  nth (nat_of_ascii s) base64_alphabet "="%char.

Fixpoint index_of (c : ascii) (l : list ascii) : option nat :=
  match l with
  | [] => None
  | x :: l' => if Ascii.eqb c x then Some 0%nat else S <$> index_of c l'
  end.

Definition base64_value (c : ascii) : option ascii :=
  ascii_of_nat <$> index_of c base64_alphabet.

(** 24-bit groups are cut into four 6-bit groups; a final group of 8 or
    16 bits is padded with zero bits to two or three 6-bit groups. *)
Fixpoint base64_groups (s : list ascii) : list ascii :=
  match s with
  | [] => []
  | [Ascii a0 a1 a2 a3 a4 a5 a6 a7] =>
      [sextet a7 a6 a5 a4 a3 a2; sextet a1 a0 false false false false]
  | [Ascii a0 a1 a2 a3 a4 a5 a6 a7; Ascii b0 b1 b2 b3 b4 b5 b6 b7] =>
      [sextet a7 a6 a5 a4 a3 a2; sextet a1 a0 b7 b6 b5 b4;
       sextet b3 b2 b1 b0 false false]
  | Ascii a0 a1 a2 a3 a4 a5 a6 a7 :: Ascii b0 b1 b2 b3 b4 b5 b6 b7
      :: Ascii c0 c1 c2 c3 c4 c5 c6 c7 :: rest =>
      sextet a7 a6 a5 a4 a3 a2 :: sextet a1 a0 b7 b6 b5 b4
        :: sextet b3 b2 b1 b0 c7 c6 :: sextet c5 c4 c3 c2 c1 c0
        :: base64_groups rest
  end.

Definition base64_padding (n : nat) : list ascii :=
  match (n mod 3)%nat with
  | 1%nat => ["="; "="]%char
  | 2%nat => ["="]%char
  | _ => []
  end.

Definition btoa (s : string) : string :=
  let cs := list_ascii_of_string s in
  string_of_list_ascii
    (map base64_char (base64_groups cs) ++ base64_padding (length cs)).

Definition is_ascii_whitespace (c : ascii) : bool :=
  let n := nat_of_ascii c in
  ((n =? 9) || (n =? 10) || (n =? 12) || (n =? 13) || (n =? 32))%nat.

Definition strip_one_pad (rs : list ascii) : list ascii :=
  match rs with
  | c :: rs' => if Ascii.eqb c "=" then rs' else rs
  | [] => rs
  end.

(** "If the length divides by 4 leaving no remainder and the data ends
    with one or two [=], remove them." *)
Definition strip_padding (cs : list ascii) : list ascii :=
  if (length cs mod 4 =? 0)%nat
  then rev (strip_one_pad (strip_one_pad (rev cs)))
  else cs.

(** Four 6-bit groups give three bytes; a trailing 12 or 18 bits give one
    or two bytes, the last 4 or 2 bits being discarded. *)
Fixpoint base64_ungroup (g : list ascii) : list ascii :=
  match g with
  | [] => []
  | [_] => []
  | [Ascii p0 p1 p2 p3 p4 p5 _ _; Ascii _ _ _ _ q4 q5 _ _] =>
      [Ascii q4 q5 p0 p1 p2 p3 p4 p5]
  | [Ascii p0 p1 p2 p3 p4 p5 _ _; Ascii q0 q1 q2 q3 q4 q5 _ _;
     Ascii _ _ r2 r3 r4 r5 _ _] =>
      [Ascii q4 q5 p0 p1 p2 p3 p4 p5; Ascii r2 r3 r4 r5 q0 q1 q2 q3]
  | Ascii p0 p1 p2 p3 p4 p5 _ _ :: Ascii q0 q1 q2 q3 q4 q5 _ _
      :: Ascii r0 r1 r2 r3 r4 r5 _ _ :: Ascii t0 t1 t2 t3 t4 t5 _ _
      :: rest =>
      Ascii q4 q5 p0 p1 p2 p3 p4 p5 :: Ascii r2 r3 r4 r5 q0 q1 q2 q3
        :: Ascii t0 t1 t2 t3 t4 t5 r0 r1 :: base64_ungroup rest
  end.

(** [atob] throws [InvalidCharacterError] where this returns [None]. *)
Definition atob (s : string) : option string :=
  let cs := List.filter (fun c => negb (is_ascii_whitespace c))
                        (list_ascii_of_string s) in
  let cs := strip_padding cs in
  if (length cs mod 4 =? 1)%nat then None
  else g ← mapM base64_value cs;
       Some (string_of_list_ascii (base64_ungroup g)).

(** *** Typed arrays, blobs and arrays with holes *)

(** [String.fromCharCode(...new Uint8Array(buf))]: one character per
    byte, with that byte as its code. *)
Definition String_fromCharCode (bytes : list byte) : string :=
  string_of_list_ascii (map ascii_of_byte bytes).

(** [bytes = new Uint8Array(s.length)] followed by
    [bytes[i] = s.charCodeAt(i)] for every [i]. *)
Definition Uint8Array_of_binary (s : string) : list byte :=
  map byte_of_ascii (list_ascii_of_string s).

(** [new Uint8Array(n)] is zero-filled. *)
Definition Uint8Array_new (n : nat) : list byte := replicate n x00.

(** [dst.set(src, off)] copies [src] into [dst] at [off]; it throws a
    [RangeError] ([None]) when [src] does not fit. *)
Definition Uint8Array_set (dst src : list byte) (off : nat)
  : option (list byte) :=
  if decide (off + length src <= length dst)%nat
  then Some (take off dst ++ src ++ drop (off + length src) dst)
  else None.

(** [Blob.prototype.slice(start, end)]: a negative bound counts from the
    end, both bounds are clamped to the size, an empty span gives an
    empty blob. *)
Definition relative_bound (size b : Z) : Z :=
  if decide (b < 0) then Z.max (size + b) 0 else Z.min b size.

Definition Blob_slice (contents : list byte) (start end_ : Z) : list byte :=
  let size := Z.of_nat (length contents) in
  let rs := relative_bound size start in
  let re := relative_bound size end_ in
  take (Z.to_nat (Z.max (re - rs) 0)) (drop (Z.to_nat rs) contents).

(** [arr[i] = v] on an array with holes: an index past the end grows
    the array, the skipped positions staying holes. *)
Definition array_set {A} (arr : list (option A)) (i : nat) (v : A)
  : list (option A) :=
  if decide (i < length arr)%nat then <[i := Some v]> arr
  else arr ++ replicate (i - length arr) None ++ [Some v].

(** [arr.reduce(f, init)] and [arr.forEach] visit the populated
    positions in index order and skip the holes. *)
Definition array_reduce {A B} (f : B -> A -> B) (init : B)
    (arr : list (option A)) : B :=
  foldl (fun acc o => match o with Some x => f acc x | None => acc end)
        init arr.

(** [/[^A-Z0-9]/] and the character class of [/^[A-Z0-9]{6}$/]. *)
Definition is_upper_or_digit (c : ascii) : bool :=
  let n := nat_of_ascii c in
  ((65 <=? n) && (n <=? 90) || (48 <=? n) && (n <=? 57))%nat.

(** [toUpperCase] on the letters a-z; every other character of the
    strings it is applied to here (they are stripped to A-Z and 0-9
    first) is left as it is. *)
Definition char_toUpperCase (c : ascii) : ascii :=
  let n := nat_of_ascii c in
  if ((97 <=? n) && (n <=? 122))%nat then ascii_of_nat (n - 32) else c.

Definition toUpperCase (s : string) : string :=
  string_of_list_ascii (map char_toUpperCase (list_ascii_of_string s)).

(** A value received from the wire where the handler expects a string. *)
Inductive value :=
| VString (s : string)
| VOther.

(** *** Notions used in the proofs *)

(** A character code below 64. *)
Definition is_sextet (s : ascii) : Prop :=
  match s with Ascii _ _ _ _ _ _ b6 b7 => b6 = false /\ b7 = false end.

End JS.

(** ** The relay server ([server.js]) *)

Module Server.
Import JS.

Definition RATE_LIMIT_WINDOW : Z := 60000.
Definition MAX_REQUESTS_PER_WINDOW : nat := 30.
Definition MAX_ROOM_SIZE : nat := 10.
Definition ROOM_CLEANUP_INTERVAL : Z := 300000.

(** Events a client emits, with their payloads. *)
Inductive client_msg :=
| JoinRoom (roomId : value)
| LeaveRoom (roomId : value)
| Offer (target : string) (offer : string)
| Answer (target : string) (answer : string)
| IceCandidate (target : string) (candidate : string)
| FileInfo (room : option string) (fileId fileName : string)
           (fileSize : Z) (mimeType : string)
| FileChunk (room : option string) (fileId : string) (chunkIndex : nat)
            (data : string) (isLast : bool)
| FileComplete (room : option string) (fileId : string)
| Ping (timestamp : Z).

(** Events the server emits. *)
Inductive server_msg :=
| Error (message : string)
| UsersInRoom (users : list string)
| UserJoined (id : string)
| UserLeft (id : string)
| RoomStatus (roomId : string) (userCount : nat) (users : list string)
| OfferFrom (offer : string) (sender : string)
| AnswerFrom (answer : string) (sender : string)
| IceCandidateFrom (candidate : string) (sender : string)
| FileInfoFrom (fileId fileName : string) (fileSize : Z)
               (mimeType : string) (sender : string)
| FileChunkFrom (fileId : string) (chunkIndex : nat) (data : string)
                (isLast : bool) (sender : string)
| FileCompleteFrom (fileId : string) (sender : string)
| Pong (timestamp serverTime : Z).

(** One event handed to one connection. *)
Definition delivery : Type := string * server_msg.

(** [rateLimit] and [rooms] are the two module-level maps; [adapter] is
    socket.io's own room membership (what [socket.join], [socket.leave]
    and the broadcast operators work on) and [sockets] the connections
    currently open. *)
Record state := State {
  rateLimit : gmap string (list Z);
  rooms : gmap string (gset string);
  adapter : gmap string (gset string);
  sockets : gset string
}.

Definition init : state := State ∅ ∅ ∅ ∅.

Definition set_rateLimit (rl : gmap string (list Z)) (s : state) : state :=
  State rl (rooms s) (adapter s) (sockets s).

Definition members (ad : gmap string (gset string)) (room : option string)
  : gset string :=
  match room with
  | Some r => ad !!! r
  | None => ∅
  end.

(** [socket.emit]: to the connection itself. *)
Definition socket_emit (sid : string) (m : server_msg) : list delivery :=
  [(sid, m)].

(** [socket.to(room).emit]: to every connection in the room except the
    emitting one. *)
Definition socket_to (ad : gmap string (gset string)) (room : option string)
    (sid : string) (m : server_msg) : list delivery :=
  (fun r => (r, m)) <$> elements (members ad room ∖ {[sid]}).

(** [io.to(room).emit]: to every connection in the room. *)
Definition io_to (ad : gmap string (gset string)) (room : option string)
    (m : server_msg) : list delivery :=
  (fun r => (r, m)) <$> elements (members ad room).

Definition in_window (now time : Z) : Prop := now - time < RATE_LIMIT_WINDOW.

Global Instance in_window_dec now time : Decision (in_window now time).
Proof. unfold in_window. apply _. Defined.

Definition checkRateLimit (now : Z) (socketId : string)
    (rl : gmap string (list Z)) : bool * gmap string (list Z) :=
  let userRequests := default [] (rl !! socketId) in
  let validRequests := filter (in_window now) userRequests in
  if decide (MAX_REQUESTS_PER_WINDOW <= length validRequests)%nat
  then (false, rl)
  else (true, <[socketId := validRequests ++ [now]]> rl).

Definition validateRoomId (roomId : string) : bool :=
  let cs := list_ascii_of_string roomId in
  (length cs =? 6)%nat && forallb is_upper_or_digit cs.

Definition sanitizeRoomId (roomId : string) : string :=
  toUpperCase
    (string_of_list_ascii
       (take 6 (List.filter is_upper_or_digit (list_ascii_of_string roomId)))).

Definition room_full (rs : gmap string (gset string)) (r : string) : bool :=
  match rs !! r with
  | Some users => bool_decide (MAX_ROOM_SIZE <= size users)%nat
  | None => false
  end.

Definition join_room (now : Z) (sid : string) (roomId : value) (s : state)
  : state * list delivery :=
  let '(admitted, rl) := checkRateLimit now sid (rateLimit s) in
  let s := set_rateLimit rl s in
  if negb admitted
  then (s, socket_emit sid (Error "Too many requests. Please wait."))
  else
    match roomId with
    | VOther | VString "" =>
        (s, socket_emit sid (Error "Invalid room code format."))
    | VString raw =>
        let sanitizedRoomId := sanitizeRoomId raw in
        if negb (validateRoomId sanitizedRoomId)
        then (s, socket_emit sid
                   (Error "Room code must be 6 alphanumeric characters."))
        else if room_full (rooms s) sanitizedRoomId
        then (s, socket_emit sid
                   (Error "Room is full. Maximum 10 users allowed."))
        else
          let ad := <[sanitizedRoomId :=
                        {[sid]} ∪ adapter s !!! sanitizedRoomId]> (adapter s) in
          let rooms1 :=
            match rooms s !! sanitizedRoomId with
            | Some _ => rooms s
            | None => <[sanitizedRoomId := ∅]> (rooms s)
            end in
          let rooms2 := alter (fun users => {[sid]} ∪ users)
                              sanitizedRoomId rooms1 in
          let users : gset string := rooms2 !!! sanitizedRoomId in
          let usersInRoom := filter (fun id => id ≠ sid) (elements users) in
          (State (rateLimit s) rooms2 ad (sockets s),
           socket_emit sid (UsersInRoom usersInRoom)
           ++ socket_to ad (Some sanitizedRoomId) sid (UserJoined sid)
           ++ io_to ad (Some sanitizedRoomId)
                (RoomStatus sanitizedRoomId (size users) (elements users)))
    end.

Definition leave_room (sid : string) (roomId : value) (s : state)
  : state * list delivery :=
  match roomId with
  | VOther => (s, [])
  | VString r =>
      match rooms s !! r with
      | Some users =>
          if decide (sid ∈ users) then
            let rooms1 := alter (fun users => users ∖ {[sid]}) r (rooms s) in
            let ad := alter (fun ms => ms ∖ {[sid]}) r (adapter s) in
            let rooms2 :=
              if decide (size (users ∖ {[sid]}) = 0)%nat
              then delete r rooms1 else rooms1 in
            (State (rateLimit s) rooms2 ad (sockets s),
             socket_to ad (Some r) sid (UserLeft sid))
          else (s, [])
      | None => (s, [])
      end
  end.

(** The three room relays and the three directed relays. *)
Definition relay (sid : string) (m : client_msg) (s : state)
  : list delivery :=
  match m with
  | Offer target offer =>
      socket_to (adapter s) (Some target) sid (OfferFrom offer sid)
  | Answer target answer =>
      socket_to (adapter s) (Some target) sid (AnswerFrom answer sid)
  | IceCandidate target candidate =>
      socket_to (adapter s) (Some target) sid (IceCandidateFrom candidate sid)
  | FileInfo room fileId fileName fileSize mimeType =>
      socket_to (adapter s) room sid
        (FileInfoFrom fileId fileName fileSize mimeType sid)
  | FileChunk room fileId chunkIndex data isLast =>
      socket_to (adapter s) room sid
        (FileChunkFrom fileId chunkIndex data isLast sid)
  | FileComplete room fileId =>
      socket_to (adapter s) room sid (FileCompleteFrom fileId sid)
  | _ => []
  end.

Definition handle (now : Z) (sid : string) (m : client_msg) (s : state)
  : state * list delivery :=
  match m with
  | JoinRoom roomId => join_room now sid roomId s
  | LeaveRoom roomId => leave_room sid roomId s
  | Ping timestamp => (s, socket_emit sid (Pong timestamp now))
  | _ => (s, relay sid m s)
  end.

(** socket.io admits a connection: it is put in the room named by its
    own id. *)
Definition connect (sid : string) (s : state) : state :=
  State (rateLimit s) (rooms s)
        (<[sid := {[sid]} ∪ adapter s !!! sid]> (adapter s))
        ({[sid]} ∪ sockets s).

(** What the [for] loop of the disconnect handler does to one entry of
    [rooms]: [None] when the entry is deleted. *)
Definition drop_member (sid : string) (users : gset string)
  : option (gset string) :=
  if decide (sid ∈ users) then
    if decide (size (users ∖ {[sid]}) = 0)%nat then None
    else Some (users ∖ {[sid]})
  else Some users.

(** The connection has left every socket.io room by the time the
    [disconnect] event fires.  The loop treats the entries of [rooms]
    independently of each other; the notifications are listed in the
    order of [map_to_list], the source's being insertion order. *)
Definition disconnect (sid : string) (s : state) : state * list delivery :=
  let ad := (fun ms => ms ∖ {[sid]}) <$> adapter s in
  (State (rateLimit s) (omap (drop_member sid) (rooms s)) ad
         (sockets s ∖ {[sid]}),
   mjoin ((fun '(roomId, users) =>
             if decide (sid ∈ (users : gset string))
             then io_to ad (Some roomId) (UserLeft sid) else [])
          <$> map_to_list (rooms s))).

Definition prune (now : Z) (requests : list Z) : option (list Z) :=
  let validRequests := filter (in_window now) requests in
  if decide (length validRequests = 0)%nat then None else Some validRequests.

(** The [setInterval] callback. *)
Definition sweep (now : Z) (s : state) : state :=
  State (omap (prune now) (rateLimit s))
        (filter (fun '(_, users) => size (users : gset string) ≠ 0%nat) (rooms s))
        (adapter s) (sockets s).

Inductive event :=
| Connect (sid : string)
| Message (sid : string) (m : client_msg)
| Disconnect (sid : string)
| Sweep.

Definition step (now : Z) (e : event) (s : state) : state * list delivery :=
  match e with
  | Connect sid => (connect sid s, [])
  | Message sid m => handle now sid m s
  | Disconnect sid => disconnect sid s
  | Sweep => (sweep now s, [])
  end.

(** A run of the event loop; [clock k] is the reading of [Date.now()]
    while the [k]-th event is handled. *)
Fixpoint run (clock : nat -> Z) (es : list event) (s : state)
  : state * list delivery :=
  match es with
  | [] => (s, [])
  | e :: es' =>
      let '(s1, out1) := step (clock 0%nat) e s in
      let '(s2, out2) := run (fun k => clock (S k)) es' s1 in
      (s2, out1 ++ out2)
  end.

(** What one connection receives, in order. *)
Definition received (rid : string) (out : list delivery) : list server_msg :=
  snd <$> filter (fun d => fst d = rid) out.

(** The sanitisation the interface description gives for room codes:
    strip the non-alphanumeric characters, uppercase, truncate to 6. *)
Definition is_alphanumeric (c : ascii) : bool :=
  let n := nat_of_ascii c in
  is_upper_or_digit c || ((97 <=? n) && (n <=? 122))%nat.

Definition described_sanitize (roomId : string) : string :=
  string_of_list_ascii
    (take 6 (map char_toUpperCase
               (List.filter is_alphanumeric (list_ascii_of_string roomId)))).

(** *** Notions used in the statements *)

(** What the relay hands to the other members for a room event. *)
Definition forwarded (sid : string) (m : client_msg) : option server_msg :=
  match m with
  | FileInfo _ fileId fileName fileSize mimeType =>
      Some (FileInfoFrom fileId fileName fileSize mimeType sid)
  | FileChunk _ fileId chunkIndex data isLast =>
      Some (FileChunkFrom fileId chunkIndex data isLast sid)
  | FileComplete _ fileId => Some (FileCompleteFrom fileId sid)
  | _ => None
  end.

Definition room_of (m : client_msg) : option string :=
  match m with
  | FileInfo room _ _ _ _ | FileChunk room _ _ _ _
  | FileComplete room _ => room
  | _ => None
  end.

(** The trailing window in the words of the data model: the timestamps
    of the last 60 seconds up to the attempt's own time. *)
Definition trailing_window (now time : Z) : Prop :=
  now - RATE_LIMIT_WINDOW < time <= now.

Global Instance trailing_window_dec now time :
  Decision (trailing_window now time).
Proof. unfold trailing_window. apply _. Defined.

(** Successive admission checks of one connection, at the given clock
    readings. *)
Fixpoint attempts (times : list Z) (socketId : string)
    (rl : gmap string (list Z)) : list bool :=
  match times with
  | [] => []
  | now :: times' =>
      let '(admitted, rl') := checkRateLimit now socketId rl in
      admitted :: attempts times' socketId rl'
  end.

(** The three grounds on which a join is refused. *)
Definition rate_denied (now : Z) (sid : string) (s : state) : Prop :=
  (checkRateLimit now sid (rateLimit s)).1 = false.

Definition malformed (roomId : value) : Prop :=
  match roomId with
  | VOther => True
  | VString raw => raw = ""%string \/ validateRoomId (sanitizeRoomId raw) = false
  end.

Definition target_full (roomId : value) (s : state) : Prop :=
  match roomId with
  | VOther => False
  | VString raw =>
      exists users, rooms s !! sanitizeRoomId raw = Some users
                    /\ (10 <= size users)%nat
  end.

(** The member set of a room code: empty for a code that is not in the
    registry. *)
Definition room_members (s : state) (r : string) : gset string :=
  default ∅ (rooms s !! r).

Definition registry_invariant (s : state) : Prop :=
  forall r, (is_Some (rooms s !! r) <-> room_members s r ≠ ∅)
            /\ (size (room_members s r) <= 10)%nat.

Definition rooms_ok (rs : gmap string (gset string)) : Prop :=
  forall r users, rs !! r = Some users -> users ≠ ∅ /\ (size users <= 10)%nat.

(** The connection an event of the loop comes from. *)
Definition origin (e : event) : option string :=
  match e with
  | Message sid _ | Disconnect sid => Some sid
  | Connect _ | Sweep => None
  end.

(** The identity a room broadcast carries: the [sender] field of the
    three file events, the id that is the whole payload of the join and
    leave notifications.  [None] for every other event. *)
Definition sender_tag (m : server_msg) : option string :=
  match m with
  | FileInfoFrom _ _ _ _ sender | FileChunkFrom _ _ _ _ sender
  | FileCompleteFrom _ sender => Some sender
  | UserJoined id | UserLeft id => Some id
  | _ => None
  end.

(** The room a room broadcast is addressed to: the [room] field of a file
    event, the sanitised code of a join, the code of a leave. *)
Definition named_room (m : client_msg) : option string :=
  match m with
  | JoinRoom (VString raw) => Some (sanitizeRoomId raw)
  | LeaveRoom (VString r) => Some r
  | _ => room_of m
  end.

(** A join that passes the three tests of the handler. *)
Definition join_accepted (now : Z) (sid : string) (roomId : value)
    (s : state) : Prop :=
  ~ rate_denied now sid s /\ ~ malformed roomId /\ ~ target_full roomId s.

End Server.

(** ** The transfer pipelines of the client ([public/app-fast.js])

    Notifications and the progress display are left out: they read the
    state below and write only to the page. *)

Module Client.
Import JS.
Export Server (client_msg, server_msg).

Record File := {
  name : string;
  type : string;
  contents : list byte
}.

(** [file.size] *)
Definition file_size (f : File) : Z := Z.of_nat (length (contents f)).

Record Blob := {
  blob_bytes : list byte;
  blob_type : string
}.

(** An entry of [activeTransfers]. *)
Record transfer := {
  transfer_file : File;
  transfer_fileName : string;
  transfer_startTime : Z;
  paused : bool
}.

(** An entry of [receivingFiles]. *)
Record fileInfo := {
  fileName : string;
  fileSize : Z;
  mimeType : string;
  chunks : list (option (list byte));
  receivedSize : Z;
  startTime : Z
}.

(** The fields of [FastFileTransfer] the transfer code reads or writes.
    [fileChunkSize] is assigned once, in the constructor, to a positive
    constant. *)
Record client := {
  currentRoom : option string;
  connectedPeers : gset string;
  fileChunkSize : positive;
  filesToSend : gmap string File;
  receivingFiles : gmap string fileInfo;
  activeTransfers : gmap string transfer
}.

(** The state the constructor leaves. *)
Definition new_client : client :=
  {| currentRoom := None; connectedPeers := ∅; fileChunkSize := 65536;
     filesToSend := ∅; receivingFiles := ∅; activeTransfers := ∅ |}.

Definition set_receivingFiles (m : gmap string fileInfo) (c : client)
  : client :=
  {| currentRoom := currentRoom c; connectedPeers := connectedPeers c;
     fileChunkSize := fileChunkSize c; filesToSend := filesToSend c;
     receivingFiles := m; activeTransfers := activeTransfers c |}.

Definition set_activeTransfers (m : gmap string transfer) (c : client)
  : client :=
  {| currentRoom := currentRoom c; connectedPeers := connectedPeers c;
     fileChunkSize := fileChunkSize c; filesToSend := filesToSend c;
     receivingFiles := receivingFiles c; activeTransfers := m |}.

(** The closure [sendNextChunk], with the variables it captures
    ([offset] and [chunkIndex], which it updates, among them) as
    arguments.  The result lists, in order, what the chain of timer
    callbacks emits; [this.currentRoom] is read at each emission and
    taken not to change while the chain runs. *)
Equations? sendNextChunk (room : option string) (fileId : string)
    (file : File) (chunkSize : positive) (offset : Z) (chunkIndex : nat)
  : list client_msg by wf (Z.to_nat (file_size file - offset)) lt :=
sendNextChunk room fileId file chunkSize offset chunkIndex :=
  let chunk := Blob_slice (contents file) offset (offset + Z.pos chunkSize) in
  let chunkData := btoa (String_fromCharCode chunk) in
  let emitted :=
    Server.FileChunk room fileId chunkIndex chunkData
      (bool_decide (offset + Z.pos chunkSize >= file_size file)) in
  if decide (offset + Z.pos chunkSize < file_size file)
  then emitted
         :: sendNextChunk room fileId file chunkSize
              (offset + Z.pos chunkSize) (S chunkIndex)
  else [emitted; Server.FileComplete room fileId].
Proof. lia. Qed.

(** [sendFile]; the clock is read once for the file id and the start
    time. *)
Definition sendFile (now : Z) (fileName : string) (c : client)
  : client * list client_msg :=
  match filesToSend c !! fileName with
  | None => (c, [])
  | Some file =>
      if decide (size (connectedPeers c) = 0)%nat then (c, [])
      else
        let fileId : string := pretty now in
        let c' :=
          set_activeTransfers
            (<[fileId := {| transfer_file := file;
                            transfer_fileName := fileName;
                            transfer_startTime := now;
                            paused := false |}]> (activeTransfers c)) c in
        (c', Server.FileInfo (currentRoom c) fileId (name file) (file_size file)
               (type file)
             :: sendNextChunk (currentRoom c) fileId file (fileChunkSize c)
                  0 0)
  end.

(** Calls of [createDownloadLink], the only outlet of a received file. *)
Inductive effect :=
| CreateDownloadLink (fileName : string) (blob : Blob) (fileId : string).

Definition handleFileInfo (now : Z) (fileId fileName : string)
    (fileSize : Z) (mimeType : string) (c : client) : client :=
  set_receivingFiles
    (<[fileId := {| fileName := fileName; fileSize := fileSize;
                    mimeType := mimeType; chunks := [];
                    receivedSize := 0; startTime := now |}]>
       (receivingFiles c)) c.

(** [fileInfo.chunks[chunkIndex] = bytes] and
    [fileInfo.receivedSize += bytes.length]. *)
Definition store_chunk (chunkIndex : nat) (bytes : list byte)
    (fi : fileInfo) : fileInfo :=
  {| fileName := fileName fi; fileSize := fileSize fi;
     mimeType := mimeType fi;
     chunks := array_set (chunks fi) chunkIndex bytes;
     receivedSize := receivedSize fi + Z.of_nat (length bytes);
     startTime := startTime fi |}.

(** An [atob] that throws leaves the handler before any assignment.
    The entry of [receivingFiles] is an object updated in place. *)
Definition handleFileChunk (fileId : string) (chunkIndex : nat)
    (data : string) (c : client) : client :=
  match receivingFiles c !! fileId with
  | None => c
  | Some fi =>
      match atob data with
      | None => c
      | Some binaryString =>
          let bytes := Uint8Array_of_binary binaryString in
          set_receivingFiles
            (<[fileId := store_chunk chunkIndex bytes fi]> (receivingFiles c))
            c
      end
  end.

(** The body of the [forEach]: [completeFile] and [offset] are the two
    variables it updates. *)
Definition copy_chunk (acc : option (list byte * nat)) (chunk : list byte)
  : option (list byte * nat) :=
  '(completeFile, offset) ← acc;
  completeFile' ← Uint8Array_set completeFile chunk offset;
  Some (completeFile', (offset + length chunk)%nat).

Definition reconstruct (chunks : list (option (list byte)))
  : option (list byte) :=
  let totalSize :=
    array_reduce (fun size chunk => (size + length chunk)%nat) 0%nat chunks in
  let completeFile := Uint8Array_new totalSize in
  fst <$> array_reduce copy_chunk (Some (completeFile, 0%nat)) chunks.

Definition handleFileComplete (fileId : string) (c : client)
  : client * list effect :=
  match receivingFiles c !! fileId with
  | None => (c, [])
  | Some fi =>
      match reconstruct (chunks fi) with
      | None => (c, [])
      | Some completeFile =>
          (set_receivingFiles (delete fileId (receivingFiles c)) c,
           [CreateDownloadLink (fileName fi)
              {| blob_bytes := completeFile; blob_type := mimeType fi |}
              fileId])
      end
  end.

(** The socket listeners of the three transfer events. *)
Definition on_message (now : Z) (m : server_msg) (c : client)
  : client * list effect :=
  match m with
  | Server.FileInfoFrom fileId fileName fileSize mimeType _ =>
      (handleFileInfo now fileId fileName fileSize mimeType c, [])
  | Server.FileChunkFrom fileId chunkIndex data _ _ =>
      (handleFileChunk fileId chunkIndex data c, [])
  | Server.FileCompleteFrom fileId _ => handleFileComplete fileId c
  | _ => (c, [])
  end.

(** The listeners run on a sequence of arrivals; [clock k] is the
    reading of [Date.now()] while the [k]-th arrival is handled. *)
Fixpoint receive (clock : nat -> Z) (ms : list server_msg) (c : client)
  : client * list effect :=
  match ms with
  | [] => (c, [])
  | m :: ms' =>
      let '(c1, out1) := on_message (clock 0%nat) m c in
      let '(c2, out2) := receive (fun k => clock (S k)) ms' c1 in
      (c2, out1 ++ out2)
  end.

(** *** Notions used in the statements *)

(** The first [m] chunk events of the chain that starts at [offset] with
    index [chunkIndex]. *)
Fixpoint chunk_msgs (m : nat) (room : option string) (fileId : string)
    (file : File) (chunkSize : positive) (offset : Z) (chunkIndex : nat)
  : list client_msg :=
  match m with
  | O => []
  | S m' =>
      Server.FileChunk room fileId chunkIndex
        (btoa (String_fromCharCode
                 (Blob_slice (contents file) offset (offset + Z.pos chunkSize))))
        (bool_decide (offset + Z.pos chunkSize >= file_size file))
      :: chunk_msgs m' room fileId file chunkSize
           (offset + Z.pos chunkSize) (S chunkIndex)
  end.

(** The number of chunk events from [offset] on, for a file of [n] bytes. *)
Definition chunk_count (n chunkSize offset : Z) : nat :=
  Z.to_nat (Z.max 1 ((n - offset + chunkSize - 1) / chunkSize)).

(** The byte blocks of [m] consecutive chunks from [offset] on. *)
Fixpoint pieces (m : nat) (contents : list byte) (chunkSize : positive)
    (offset : Z) : list (list byte) :=
  match m with
  | O => []
  | S m' =>
      Blob_slice contents offset (offset + Z.pos chunkSize)
      :: pieces m' contents chunkSize (offset + Z.pos chunkSize)
  end.

(** A buffer after the blocks [ps] were stored behind its last index. *)
Definition add_pieces (ps : list (list byte)) (fi : fileInfo) : fileInfo :=
  {| fileName := fileName fi; fileSize := fileSize fi;
     mimeType := mimeType fi;
     chunks := chunks fi ++ (Some <$> ps);
     receivedSize := receivedSize fi + Z.of_nat (length (concat ps));
     startTime := startTime fi |}.

(** Index and last flag of the chunk events among what was emitted. *)
Definition chunk_flags (ms : list client_msg) : list (nat * bool) :=
  omap (fun m => match m with
                 | Server.FileChunk _ _ chunkIndex _ isLast =>
                     Some (chunkIndex, isLast)
                 | _ => None
                 end) ms.

(** The slot of the receive buffers a chunk arrival writes. *)
Definition chunk_slot (m : server_msg) : option (string * nat) :=
  match m with
  | Server.FileChunkFrom fileId chunkIndex _ _ _ => Some (fileId, chunkIndex)
  | _ => None
  end.

End Client.

(** ** The HTTP surface of [server.js] and the liveness route of
    [health-endpoint-addition.js] *)

Module Http.

(** What [process.uptime()] (seconds) and
    [process.memoryUsage().heapUsed] (bytes) read. *)
Record process := {
  uptime : Q;
  heapUsed : Z
}.

(** The values and objects the liveness route builds. *)
Inductive json_value :=
| JString (s : string)
| JNumber (q : Q).

Definition json_object : Type := list (string * json_value).

(** [path] is [req.path]: the path name without the query string. *)
Record request := {
  method : string;
  path : string
}.

(** What an answer carries: the object of [res.json], a file of the
    directory [public], the page express writes when nothing answers, or
    nothing. *)
Inductive payload :=
| Json (o : json_object)
| FileOf (file : string)
| ErrorPage
| NoBody.

Record response := {
  statusCode : Z;
  body : payload
}.

(** What a request is answered from: the state of the relay, the process,
    and the names of the files in the directory [public] (plain files, no
    subdirectories). *)
Record env := {
  relay_state : Server.state;
  proc : process;
  public_dir : list string
}.

Definition handler : Type := env -> request -> response.

(** The answer of express when no layer answers. *)
Definition not_found : response := {| statusCode := 404; body := ErrorPage |}.

(** [Math.round]: the nearest integer, a half going up. *)
Definition Math_round (q : Q) : Z := Qfloor (q + (1 # 2))%Q.

(** [res.json(v)] answers 200 with [v] as the body. *)
Definition res_json (v : json_object) : response :=
  {| statusCode := 200; body := Json v |}.

(** [res.sendFile] on a file of [public]: a missing file is a 404.  The
    [public] beside [server.js] and the [public] that [express.static]
    resolves from the working directory are taken to be one directory. *)
Definition res_sendFile (name : string) (e : env) : response :=
  if bool_decide (name ∈ public_dir e)
  then {| statusCode := 200; body := FileOf name |}
  else not_found.

(** The handler of [app.get("/", ...)] in [server.js]. *)
Definition index : handler := fun e _ => res_sendFile "index.html" e.

(** The handler of [health-endpoint-addition.js]. *)
Definition health : handler := fun e _ =>
  res_json
    [("status", JString "healthy");
     ("uptime", JNumber (uptime (proc e)));
     ("memory",
      JString (pretty (Math_round (inject_Z (heapUsed (proc e)) / 1024 / 1024)%Q)
               +:+ "MB"))].

(** What [app.use] and [app.get] stack up. *)
Inductive layer :=
| Use_cors
| Use_static
| Get (route : string) (h : handler).

(** The file a path names under [public]: the index page for [/]. *)
Definition file_of_path (p : string) : option string :=
  match p with
  | String "/"%char EmptyString => Some "index.html"%string
  | String "/"%char name => Some name
  | _ => None
  end.

(** [cors()]: a preflight request is answered at once, any other passes
    on with the headers set. *)
Definition cors (req : request) : option response :=
  if String.eqb (method req) "OPTIONS"
  then Some {| statusCode := 204; body := NoBody |}
  else None.

(** [express.static("public")]: a GET or HEAD request for a file that is
    there is answered with it, any other request passes on. *)
Definition express_static (e : env) (req : request) : option response :=
  if String.eqb (method req) "GET" || String.eqb (method req) "HEAD"
  then match file_of_path (path req) with
       | Some f =>
           if bool_decide (f ∈ public_dir e)
           then Some {| statusCode := 200;
                        body := if String.eqb (method req) "HEAD"
                                then NoBody else FileOf f |}
           else None
       | None => None
       end
  else None.

(** A request goes down the layers in the order of their registration
    until one answers.  A route is taken to match the GET requests for
    the path as it is written (express matches it without regard to
    case or to a trailing slash as well). *)
Fixpoint respond (layers : list layer) (e : env) (req : request) : response :=
  match layers with
  | [] => not_found
  | Use_cors :: rest =>
      match cors req with
      | Some r => r
      | None => respond rest e req
      end
  | Use_static :: rest =>
      match express_static e req with
      | Some r => r
      | None => respond rest e req
      end
  | Get route h :: rest =>
      if String.eqb (method req) "GET" && String.eqb (path req) route
      then h e req
      else respond rest e req
  end.

(** The application [server.js] builds: [app.use(cors())],
    [app.use(express.static("public"))] and [app.get("/", ...)]. *)
Definition app : list layer := [Use_cors; Use_static; Get "/" index].

(** The application once the route of [health-endpoint-addition.js] is
    added where its comment says: after the existing routes. *)
Definition app_with_health : list layer := app ++ [Get "/health" health].

Fixpoint field (k : string) (fs : json_object) : option json_value :=
  match fs with
  | [] => None
  | (k', v) :: fs' => if String.eqb k k' then Some v else field k fs'
  end.

(** The request of a liveness probe. *)
Definition probe : request := {| method := "GET"; path := "/health" |}.

End Http.

(** ** Concrete states and messages *)

Module Scenario.
Import JS Server Client.

(** A file of 131082 bytes: two full chunks and ten bytes. *)
Definition demo_file : File :=
  {| name := "photo.bin"; type := "application/octet-stream";
     contents := replicate (Z.to_nat 131082) x2a |}.

Definition demo_sender : client :=
  {| currentRoom := Some "ACD347"; connectedPeers := {["peer"]};
     fileChunkSize := fileChunkSize new_client;
     filesToSend := {["photo.bin" := demo_file]};
     receivingFiles := ∅; activeTransfers := ∅ |}.

Definition demo_relay : Server.state :=
  Server.State ∅ {["ACD347" := {["me"; "peer"]}]}
               {["ACD347" := {["me"; "peer"]}]} {["me"; "peer"]}.

(** A file of 131072 bytes, twice the chunk size. *)
Definition demo_even_file : File :=
  {| name := "even.bin"; type := "application/octet-stream";
     contents := replicate (Z.to_nat 131072) x00 |}.

Definition demo_even_sender : client :=
  {| currentRoom := Some "ACD347"; connectedPeers := {["peer"]};
     fileChunkSize := fileChunkSize new_client;
     filesToSend := {["even.bin" := demo_even_file]};
     receivingFiles := ∅; activeTransfers := ∅ |}.

(** Three chunks of one transfer: [hell], [o wo], [rld]. *)
Definition demo_info : server_msg :=
  Server.FileInfoFrom "7" "hello.txt" 11 "text/plain" "me".
Definition demo_chunk0 : server_msg :=
  Server.FileChunkFrom "7" 0 (btoa "hell") false "me".
Definition demo_chunk1 : server_msg :=
  Server.FileChunkFrom "7" 1 (btoa "o wo") false "me".
Definition demo_chunk2 : server_msg :=
  Server.FileChunkFrom "7" 2 (btoa "rld") true "me".
Definition demo_complete : server_msg := Server.FileCompleteFrom "7" "me".

(** A room at capacity and an eleventh connection. *)
Definition demo_full_room : state :=
  State ∅
    {["ACD347" := {["u0"; "u1"; "u2"; "u3"; "u4"; "u5"; "u6"; "u7"; "u8"; "u9"]}]}
    {["ACD347" := {["u0"; "u1"; "u2"; "u3"; "u4"; "u5"; "u6"; "u7"; "u8"; "u9"]}]}
    {["u0"; "u1"; "u2"; "u3"; "u4"; "u5"; "u6"; "u7"; "u8"; "u9"; "u10"]}.

(** A room of two. *)
Definition demo_pair : state :=
  State ∅ {["ACD347" := {["a"; "b"]}]} {["ACD347" := {["a"; "b"]}]} {["a"; "b"]}.

(** A process up for a minute and a half with 20 MB of heap, serving the
    directory [public] as the repository has it. *)
Definition demo_env : Http.env :=
  {| Http.relay_state := Server.init;
     Http.proc := {| Http.uptime := 181 # 2; Http.heapUsed := 20971520 |};
     Http.public_dir := ["app-fast.js"] |}.

End Scenario.

(** * Proofs *)

Import JS Server Client Scenario.

(** ** Base64: [atob] undoes [btoa] *)

Section Base64.

(** Induction over a list three elements at a time. *)
Lemma list_ind3 {A} (P : list A -> Prop) :
  P [] -> (forall a, P [a]) -> (forall a b, P [a; b]) ->
  (forall a b c l, P l -> P (a :: b :: c :: l)) ->
  forall l, P l.
Proof.
  intros H0 H1 H2 H3.
  fix IH 1.
  intros [|a [|b [|c l]]]; [exact H0 | apply H1 | apply H2 | apply H3, IH].
Qed.

Lemma base64_value_char s :
  is_sextet s -> base64_value (base64_char s) = Some s.
Proof.
  destruct s as [b0 b1 b2 b3 b4 b5 b6 b7]. intros [-> ->].
  destruct b0, b1, b2, b3, b4, b5; reflexivity.
Qed.

Lemma base64_char_plain s :
  is_sextet s ->
  is_ascii_whitespace (base64_char s) = false /\ base64_char s <> "="%char.
Proof.
  destruct s as [b0 b1 b2 b3 b4 b5 b6 b7]. intros [-> ->].
  destruct b0, b1, b2, b3, b4, b5; split; (reflexivity || discriminate).
Qed.

Lemma base64_groups_sextets s : Forall is_sextet (base64_groups s).
Proof.
  induction s as [|a|a b|a b c l IH] using list_ind3.
  - constructor.
  - destruct a. repeat constructor.
  - destruct a, b. repeat constructor.
  - destruct a, b, c. cbn. repeat (constructor; [split; reflexivity|]). exact IH.
Qed.

Lemma base64_ungroup_groups s : base64_ungroup (base64_groups s) = s.
Proof.
  induction s as [|a|a b|a b c l IH] using list_ind3.
  - reflexivity.
  - destruct a. reflexivity.
  - destruct a, b. reflexivity.
  - destruct a, b, c. cbn. rewrite IH. reflexivity.
Qed.

Lemma base64_padding_step n :
  base64_padding (S (S (S n))) = base64_padding n.
Proof.
  unfold base64_padding.
  replace (S (S (S n))) with (n + 1 * 3)%nat by lia.
  by rewrite Nat.Div0.mod_add.
Qed.

Lemma base64_groups_step a b c l :
  length (base64_groups (a :: b :: c :: l)) = (4 + length (base64_groups l))%nat.
Proof. destruct a, b, c. reflexivity. Qed.

Lemma base64_length_mod4 s :
  ((length (base64_groups s) + length (base64_padding (length s))) mod 4 = 0
   /\ length (base64_groups s) mod 4 <> 1)%nat.
Proof.
  induction s as [|a|a b|a b c l IH] using list_ind3.
  - split; [reflexivity | discriminate].
  - destruct a. split; [reflexivity | discriminate].
  - destruct a, b. split; [reflexivity | discriminate].
  - rewrite base64_groups_step. cbn [length]. rewrite base64_padding_step.
    destruct IH as [IH1 IH2].
    replace (4 + length (base64_groups l) + length (base64_padding (length l)))%nat
      with (length (base64_groups l) + length (base64_padding (length l)) + 1 * 4)%nat by lia.
    replace (4 + length (base64_groups l))%nat
      with (length (base64_groups l) + 1 * 4)%nat by lia.
    by rewrite !Nat.Div0.mod_add.
Qed.

Lemma base64_padding_cases n :
  base64_padding n = [] \/ base64_padding n = ["="%char]
  \/ base64_padding n = ["="%char; "="%char].
Proof.
  unfold base64_padding. destruct (n mod 3)%nat as [|[|[|?]]]; auto.
Qed.

Lemma strip_one_pad_plain c l :
  c <> "="%char -> strip_one_pad (c :: l) = c :: l.
Proof.
  intros Hc. cbn. destruct (Ascii.eqb_spec c "="); [done | reflexivity].
Qed.

(** Stripping removes exactly the padding [btoa] appended. *)
Lemma strip_padding_encoded body n :
  ((length body + length (base64_padding n)) mod 4 = 0)%nat ->
  Forall (fun c => c <> "="%char) body ->
  strip_padding (body ++ base64_padding n) = body.
Proof.
  intros Hlen Hbody. unfold strip_padding.
  rewrite length_app, Hlen. cbn [Nat.eqb].
  rewrite rev_app_distr.
  assert (Hs : strip_one_pad (rev body) = rev body).
  { destruct (rev body) as [|c r] eqn:E; [reflexivity |].
    apply strip_one_pad_plain.
    rewrite Forall_forall in Hbody. apply Hbody.
    apply list_elem_of_In, in_rev. rewrite E. left. reflexivity. }
  destruct (base64_padding_cases n) as [-> | [-> | ->]]; cbn.
  - rewrite !Hs. apply rev_involutive.
  - rewrite Hs. apply rev_involutive.
  - apply rev_involutive.
Qed.

Lemma mapM_base64_value g :
  Forall is_sextet g -> mapM base64_value (map base64_char g) = Some g.
Proof.
  induction 1 as [|s g Hs _ IH]; [reflexivity |].
  cbn -[base64_value base64_char]. rewrite base64_value_char by done.
  cbn -[base64_value base64_char]. rewrite IH. reflexivity.
Qed.

Lemma filter_id {A} (f : A -> bool) l :
  Forall (fun x => f x = true) l -> List.filter f l = l.
Proof.
  induction 1 as [|x l Hx _ IH]; [reflexivity |].
  cbn. rewrite Hx, IH. reflexivity.
Qed.

Theorem atob_btoa s : atob (btoa s) = Some s.
Proof.
  unfold atob, btoa.
  set (cs := list_ascii_of_string s).
  rewrite list_ascii_of_string_of_list_ascii.
  pose proof (base64_groups_sextets cs) as Hsx.
  pose proof (base64_length_mod4 cs) as [Hlen Hne].
  assert (Hplain : Forall (fun c => is_ascii_whitespace c = false /\ c <> "="%char)
                          (map base64_char (base64_groups cs))).
  { apply Forall_map. eapply Forall_impl; [exact Hsx |].
    intros x Hx. by apply base64_char_plain. }
  rewrite filter_id.
  2:{ apply Forall_app. split.
      - eapply Forall_impl; [exact Hplain |]. intros x [-> _]. reflexivity.
      - destruct (base64_padding_cases (length cs)) as [-> | [-> | ->]];
          repeat constructor. }
  rewrite strip_padding_encoded.
  2:{ by rewrite length_map. }
  2:{ eapply Forall_impl; [exact Hplain |]. by intros x [_ ?]. }
  rewrite length_map.
  destruct (Nat.eqb_spec (length (base64_groups cs) mod 4) 1); [done |].
  rewrite mapM_base64_value by done. cbn.
  rewrite base64_ungroup_groups. unfold cs.
  by rewrite string_of_list_ascii_of_string.
Qed.

Lemma Uint8Array_of_fromCharCode bytes :
  Uint8Array_of_binary (String_fromCharCode bytes) = bytes.
Proof.
  unfold Uint8Array_of_binary, String_fromCharCode.
  rewrite list_ascii_of_string_of_list_ascii, map_map.
  rewrite <- (map_id bytes) at 2. apply map_ext. apply byte_of_ascii_of_byte.
Qed.

End Base64.

(** ** The chain of [sendNextChunk] *)

Section Chunking.

Lemma Blob_slice_chunk contents off cs :
  0 <= off -> 0 < cs ->
  Blob_slice contents off (off + cs)
  = take (Z.to_nat cs) (drop (Z.to_nat off) contents).
Proof.
  intros Hoff Hcs. unfold Blob_slice, relative_bound.
  repeat case_decide; try lia.
  destruct (decide (off <= Z.of_nat (length contents))) as [Hin | Hout].
  - rewrite (Z.min_l off) by lia.
    destruct (decide (off + cs <= Z.of_nat (length contents))).
    + rewrite (Z.min_l (off + cs)) by lia. f_equal. lia.
    + rewrite (Z.min_r (off + cs)) by lia.
      rewrite (take_ge _ (Z.to_nat cs)) by (rewrite length_drop; lia).
      apply take_ge. rewrite length_drop. lia.
  - rewrite !(drop_ge contents) by lia. by rewrite !take_nil.
Qed.

Lemma length_Blob_slice contents off cs :
  0 <= off -> 0 < cs ->
  Z.of_nat (length (Blob_slice contents off (off + cs)))
  = Z.max 0 (Z.min cs (Z.of_nat (length contents) - off)).
Proof.
  intros Hoff Hcs. rewrite Blob_slice_chunk by done.
  rewrite length_take, length_drop. lia.
Qed.

Lemma chunk_count_last n cs off :
  0 < cs -> ~ off + cs < n -> chunk_count n cs off = 1%nat.
Proof.
  intros Hcs Hlast. unfold chunk_count.
  assert ((n - off + cs - 1) / cs <= 1).
  { apply Z.lt_succ_r. apply Z.div_lt_upper_bound; lia. }
  lia.
Qed.

Lemma chunk_count_more n cs off :
  0 < cs -> off + cs < n ->
  chunk_count n cs off = S (chunk_count n cs (off + cs)).
Proof.
  intros Hcs Hmore. unfold chunk_count.
  replace (n - off + cs - 1) with ((n - (off + cs) + cs - 1) + 1 * cs) by lia.
  rewrite Z.div_add by lia.
  assert (1 <= (n - (off + cs) + cs - 1) / cs).
  { apply Z.div_le_lower_bound; lia. }
  lia.
Qed.

Lemma sendNextChunk_chunk_msgs room fileId file chunkSize offset chunkIndex :
  sendNextChunk room fileId file chunkSize offset chunkIndex
  = chunk_msgs (chunk_count (file_size file) (Z.pos chunkSize) offset)
      room fileId file chunkSize offset chunkIndex
    ++ [Server.FileComplete room fileId].
Proof.
  funelim (sendNextChunk room fileId file chunkSize offset chunkIndex).
  case_decide as Hmore.
  - rewrite chunk_count_more by lia. cbn [chunk_msgs app]. by rewrite H.
  - by rewrite chunk_count_last by lia.
Qed.

Lemma concat_pieces m contents cs off :
  0 <= off ->
  concat (pieces m contents cs off)
  = take (m * Pos.to_nat cs) (drop (Z.to_nat off) contents).
Proof.
  revert off. induction m as [|m IH]; intros off Hoff; [reflexivity |].
  cbn [pieces concat]. rewrite IH by lia.
  rewrite Blob_slice_chunk by lia.
  replace (Z.to_nat (off + Z.pos cs)) with (Z.to_nat off + Pos.to_nat cs)%nat by lia.
  rewrite <- drop_drop.
  replace (Z.to_nat (Z.pos cs)) with (Pos.to_nat cs) by lia.
  rewrite take_take_drop. f_equal.
Qed.

Lemma chunk_count_covers n cs :
  0 <= n -> 0 < cs -> n <= Z.of_nat (chunk_count n cs 0) * cs.
Proof.
  intros Hn Hcs. unfold chunk_count.
  rewrite Z2Nat.id by lia.
  pose proof (Z.mul_div_le (n - 0 + cs - 1) cs Hcs).
  pose proof (Z.mod_pos_bound (n - 0 + cs - 1) cs Hcs).
  pose proof (Z.div_mod (n - 0 + cs - 1) cs ltac:(lia)).
  nia.
Qed.

Lemma concat_all_pieces contents cs :
  concat (pieces (chunk_count (Z.of_nat (length contents)) (Z.pos cs) 0)
                 contents cs 0) = contents.
Proof.
  rewrite concat_pieces by lia. cbn [Z.to_nat drop].
  apply take_ge.
  pose proof (chunk_count_covers (Z.of_nat (length contents)) (Z.pos cs)
                ltac:(lia) ltac:(lia)).
  nia.
Qed.

Lemma chunk_flags_chunk_msgs room fid file cs m :
  forall idx,
    chunk_flags (chunk_msgs m room fid file cs (Z.of_nat idx * Z.pos cs) idx)
    = (fun i => (i, bool_decide (Z.of_nat i * Z.pos cs + Z.pos cs >= file_size file)))
        <$> seq idx m.
Proof.
  induction m as [|m IH]; intros idx; [reflexivity |].
  cbn [chunk_msgs seq]. rewrite fmap_cons. unfold chunk_flags.
  change (?x :: ?l) with ([x] ++ l) at 1. rewrite omap_app.
  cbn [omap list_omap app]. f_equal.
  replace (Z.of_nat idx * Z.pos cs + Z.pos cs) with (Z.of_nat (S idx) * Z.pos cs) by lia.
  apply IH.
Qed.

Lemma chunk_flags_sendFile now fname file c :
  filesToSend c !! fname = Some file ->
  size (connectedPeers c) ≠ 0%nat ->
  chunk_flags (sendFile now fname c).2
  = (fun i => (i, bool_decide (Z.of_nat i * Z.pos (fileChunkSize c)
                               + Z.pos (fileChunkSize c) >= file_size file)))
      <$> seq 0 (chunk_count (file_size file) (Z.pos (fileChunkSize c)) 0).
Proof.
  intros Hfile Hpeers. unfold sendFile. rewrite Hfile.
  case_decide; [done |]. cbn [snd].
  rewrite sendNextChunk_chunk_msgs.
  unfold chunk_flags.
  change (?x :: ?l ++ ?r) with ([x] ++ l ++ r). rewrite !omap_app.
  cbn [omap list_omap app]. rewrite app_nil_r.
  apply (chunk_flags_chunk_msgs _ _ _ _ _ 0%nat).
Qed.

(** [sendFile] on a file of 131082 bytes: three chunks of 65536, 65536 and
    10 bytes, the last flag set on the third only. *)
Lemma sendFile_131082 now fname file c :
  filesToSend c !! fname = Some file ->
  size (connectedPeers c) ≠ 0%nat ->
  fileChunkSize c = 65536%positive ->
  file_size file = 131082 ->
  exists p0 p1 p2,
    (sendFile now fname c).2
    = [Server.FileInfo (currentRoom c) (pretty now) (name file) 131082 (type file);
       Server.FileChunk (currentRoom c) (pretty now) 0
         (btoa (String_fromCharCode p0)) false;
       Server.FileChunk (currentRoom c) (pretty now) 1
         (btoa (String_fromCharCode p1)) false;
       Server.FileChunk (currentRoom c) (pretty now) 2
         (btoa (String_fromCharCode p2)) true;
       Server.FileComplete (currentRoom c) (pretty now)]
    /\ Z.of_nat (length p0) = 65536 /\ Z.of_nat (length p1) = 65536
    /\ Z.of_nat (length p2) = 10 /\ p0 ++ p1 ++ p2 = contents file.
Proof.
  intros Hfile Hpeers Hcs Hsize.
  exists (Blob_slice (contents file) 0 (0 + 65536)),
         (Blob_slice (contents file) 65536 (65536 + 65536)),
         (Blob_slice (contents file) 131072 (131072 + 65536)).
  unfold file_size in Hsize.
  rewrite !length_Blob_slice, Hsize by lia.
  split; [| split; [lia | split; [lia | split; [lia |]]]].
  - unfold sendFile. rewrite Hfile. case_decide; [done |]. cbn [snd].
    rewrite sendNextChunk_chunk_msgs, Hcs.
    unfold file_size. rewrite Hsize.
    change (chunk_count 131082 65536 0) with 3%nat.
    cbn [chunk_msgs app]. unfold file_size. rewrite Hsize. reflexivity.
  - pose proof (concat_all_pieces (contents file) 65536) as Hall.
    rewrite Hsize in Hall.
    change (chunk_count 131082 65536 0) with 3%nat in Hall.
    cbn [pieces concat] in Hall. rewrite app_nil_r in Hall. exact Hall.
Qed.

End Chunking.

(** ** The receive buffer and its reassembly *)

Section Reassembly.

Lemma array_set_end {A} (l : list (option A)) v :
  array_set l (length l) v = l ++ [Some v].
Proof.
  unfold array_set. case_decide; [lia |].
  by rewrite Nat.sub_diag.
Qed.

Lemma array_reduce_Some {A B} (f : B -> A -> B) b (l : list A) :
  array_reduce f b (Some <$> l) = foldl f b l.
Proof.
  revert b. induction l as [|x l IH]; intros b; [reflexivity |].
  cbn. apply IH.
Qed.

Lemma total_size_concat (ps : list (list byte)) n :
  foldl (fun size chunk => (size + length chunk)%nat) n ps
  = (n + length (concat ps))%nat.
Proof.
  revert n. induction ps as [|p ps IH]; intros n; cbn [foldl concat].
  - cbn. lia.
  - rewrite IH, length_app. lia.
Qed.

Lemma Uint8Array_set_next (done rest p : list byte) :
  (length p <= length rest)%nat ->
  Uint8Array_set (done ++ rest) p (length done)
  = Some ((done ++ p) ++ drop (length p) rest).
Proof.
  intros Hfit. unfold Uint8Array_set.
  case_decide as Hle; [| rewrite length_app in Hle; lia].
  rewrite take_app_length, drop_app_add'. 2: reflexivity.
  by rewrite <- app_assoc.
Qed.

Lemma copy_chunks_concat (ps : list (list byte)) (done rest : list byte) :
  length rest = length (concat ps) ->
  foldl copy_chunk (Some (done ++ rest, length done)) ps
  = Some (done ++ concat ps, length (done ++ concat ps)).
Proof.
  revert done rest. induction ps as [|p ps IH]; intros done rest Hlen.
  - cbn in *. apply nil_length_inv in Hlen as ->. by rewrite app_nil_r.
  - cbn [foldl concat] in *. rewrite length_app in Hlen.
    unfold copy_chunk at 2. cbn [mbind option_bind].
    rewrite Uint8Array_set_next by lia. cbn [mbind option_bind].
    rewrite <- length_app.
    rewrite IH by (rewrite length_drop; lia).
    by rewrite <- app_assoc.
Qed.

(** Reassembly of a buffer without holes is concatenation. *)
Lemma reconstruct_full (ps : list (list byte)) :
  reconstruct (Some <$> ps) = Some (concat ps).
Proof.
  unfold reconstruct. rewrite !array_reduce_Some, total_size_concat.
  cbn [Nat.add]. unfold Uint8Array_new.
  pose proof (copy_chunks_concat ps [] (replicate (length (concat ps)) x00)) as H.
  cbn [app length] in H. rewrite H by apply length_replicate.
  reflexivity.
Qed.

Lemma set_receivingFiles_id c : set_receivingFiles (receivingFiles c) c = c.
Proof. by destruct c. Qed.

Lemma set_receivingFiles_twice m1 m2 c :
  set_receivingFiles m2 (set_receivingFiles m1 c) = set_receivingFiles m2 c.
Proof. reflexivity. Qed.

Lemma add_pieces_nil fi : add_pieces [] fi = fi.
Proof.
  destruct fi. unfold add_pieces. cbn. f_equal; [apply app_nil_r | lia].
Qed.

Lemma add_pieces_store p ps fi :
  add_pieces ps (store_chunk (length (chunks fi)) p fi) = add_pieces (p :: ps) fi.
Proof.
  unfold add_pieces, store_chunk. cbn [chunks receivedSize fileName fileSize mimeType startTime].
  rewrite array_set_end. f_equal.
  - by rewrite <- app_assoc.
  - cbn [concat]. rewrite length_app. lia.
Qed.

Lemma handleFileChunk_encoded fid idx bytes fi c :
  receivingFiles c !! fid = Some fi ->
  handleFileChunk fid idx (btoa (String_fromCharCode bytes)) c
  = set_receivingFiles (<[fid := store_chunk idx bytes fi]> (receivingFiles c)) c.
Proof.
  intros Hfi. unfold handleFileChunk.
  by rewrite Hfi, atob_btoa, Uint8Array_of_fromCharCode.
Qed.

Lemma receive_chunk_msgs sid room fid file cs m :
  forall off clock fi c,
    receivingFiles c !! fid = Some fi ->
    receive clock
      (omap (forwarded sid)
         (chunk_msgs m room fid file cs off (length (chunks fi)))) c
    = (set_receivingFiles
         (<[fid := add_pieces (pieces m (contents file) cs off) fi]>
            (receivingFiles c)) c, []).
Proof.
  induction m as [|m IH]; intros off clock fi c Hfi.
  - cbn. rewrite add_pieces_nil, insert_id by done.
    by rewrite set_receivingFiles_id.
  - cbn [chunk_msgs omap list_omap forwarded pieces receive on_message].
    rewrite (handleFileChunk_encoded _ _ _ fi) by done.
    set (fi1 := store_chunk _ _ fi).
    set (c1 := set_receivingFiles _ c).
    assert (Hfi1 : receivingFiles c1 !! fid = Some fi1) by apply lookup_insert_eq.
    replace (S (length (chunks fi))) with (length (chunks fi1)).
    2:{ unfold fi1, store_chunk. cbn [chunks].
        rewrite array_set_end, length_app. cbn. lia. }
    rewrite (IH _ _ fi1 c1 Hfi1). cbn [app]. f_equal.
    unfold c1, fi1. rewrite set_receivingFiles_twice. cbn [receivingFiles set_receivingFiles].
    rewrite insert_insert_eq. by rewrite add_pieces_store.
Qed.

Lemma receive_app clock ms1 ms2 c :
  receive clock (ms1 ++ ms2) c
  = let '(c1, out1) := receive clock ms1 c in
    let '(c2, out2) := receive (fun k => clock (length ms1 + k)%nat) ms2 c1 in
    (c2, out1 ++ out2).
Proof.
  revert clock c. induction ms1 as [|m ms1 IH]; intros clock c.
  - cbn. by destruct (receive _ ms2 c).
  - cbn [app receive length].
    destruct (on_message (clock 0%nat) m c) as [c1 out1].
    rewrite IH.
    destruct (receive _ ms1 c1) as [c2 out2].
    cbn [Nat.add].
    destruct (receive _ ms2 c2) as [c3 out3].
    by rewrite app_assoc.
Qed.

Lemma forwarded_transfer sid room fid fname fsize ftype ms :
  omap (forwarded sid)
    (Server.FileInfo room fid fname fsize ftype
       :: ms ++ [Server.FileComplete room fid])
  = Server.FileInfoFrom fid fname fsize ftype sid
      :: omap (forwarded sid) ms ++ [Server.FileCompleteFrom fid sid].
Proof.
  change (?x :: ?l ++ ?r) with ([x] ++ l ++ r). by rewrite !omap_app.
Qed.

(** The receiver fed, in order, with what the relay forwards of one
    [sendFile] rebuilds the file. *)
Lemma receive_transfer clock sid now fname file c rc :
  filesToSend c !! fname = Some file ->
  size (connectedPeers c) ≠ 0%nat ->
  receive clock (omap (forwarded sid) (sendFile now fname c).2) rc
  = (set_receivingFiles (delete (pretty now) (receivingFiles rc)) rc,
     [CreateDownloadLink (name file)
        {| blob_bytes := contents file; blob_type := type file |}
        (pretty now)]).
Proof.
  intros Hfile Hpeers. unfold sendFile. rewrite Hfile.
  case_decide; [done |]. cbn [snd].
  rewrite sendNextChunk_chunk_msgs, forwarded_transfer.
  cbn [receive on_message].
  set (fid := pretty now).
  set (c0 := handleFileInfo _ _ _ _ _ rc).
  set (fi0 := {| fileName := name file; fileSize := file_size file;
                 mimeType := type file; chunks := []; receivedSize := 0;
                 startTime := clock 0%nat |}).
  assert (Hfi0 : receivingFiles c0 !! fid = Some fi0) by apply lookup_insert_eq.
  rewrite receive_app.
  change 0%nat with (length (chunks fi0)) at 2.
  rewrite (receive_chunk_msgs _ _ _ _ _ _ _ _ fi0 c0 Hfi0).
  cbn [omap forwarded receive on_message app].
  unfold handleFileComplete.
  cbn [receivingFiles set_receivingFiles]. rewrite lookup_insert_eq.
  cbn [chunks add_pieces fi0 app fileName mimeType].
  unfold file_size. rewrite reconstruct_full, concat_all_pieces.
  cbn [app]. f_equal.
  unfold c0, handleFileInfo. cbn [receivingFiles set_receivingFiles].
  by rewrite !delete_insert_eq.
Qed.

End Reassembly.

(** ** What the relay delivers *)

Section Relay.

Lemma received_app rid o1 o2 :
  received rid (o1 ++ o2) = received rid o1 ++ received rid o2.
Proof. unfold received. by rewrite filter_app, fmap_app. Qed.

Lemma received_fanout rid (m : server_msg) (l : list string) :
  NoDup l ->
  received rid ((fun r => (r, m)) <$> l) = if decide (rid ∈ l) then [m] else [].
Proof.
  unfold received.
  induction 1 as [|x l Hx Hl IH]; [reflexivity |].
  rewrite fmap_cons. destruct (decide (x = rid)) as [-> | Hne].
  - rewrite filter_cons_True by done. rewrite fmap_cons.
    rewrite decide_True by set_solver.
    rewrite decide_False in IH by done. cbn [snd]. f_equal. exact IH.
  - rewrite filter_cons_False by done.
    etrans; [exact IH |].
    destruct (decide (rid ∈ l)).
    + by rewrite decide_True by set_solver.
    + by rewrite decide_False by set_solver.
Qed.

(** A room broadcast reaches every other member exactly once, and never
    its sender. *)
Lemma received_socket_to rid ad room sid m :
  received rid (socket_to ad room sid m)
  = if decide (rid ∈ members ad room ∧ rid ≠ sid) then [m] else [].
Proof.
  unfold socket_to. rewrite received_fanout by apply NoDup_elements.
  destruct (decide (rid ∈ members ad room ∧ rid ≠ sid)) as [[? ?] | Hn].
  - by rewrite decide_True by set_solver.
  - rewrite decide_False; [done |]. set_solver.
Qed.

Lemma handle_forwarded now sid m msg s :
  forwarded sid m = Some msg ->
  handle now sid m s = (s, socket_to (adapter s) (room_of m) sid msg).
Proof.
  destruct m; cbn; intros [= <-]; reflexivity.
Qed.

Lemma run_room_events sid rid room evs :
  forall clock s,
    rid ≠ sid -> rid ∈ members (adapter s) room ->
    Forall (fun m => is_Some (forwarded sid m) ∧ room_of m = room) evs ->
    (run clock (Message sid <$> evs) s).1 = s
    ∧ received rid (run clock (Message sid <$> evs) s).2
      = omap (forwarded sid) evs.
Proof.
  induction evs as [|m evs IH]; intros clock s Hne Hin Hall; [done |].
  apply Forall_cons in Hall as [[[msg Hmsg] Hroom] Hall].
  rewrite fmap_cons. cbn [run step].
  rewrite (handle_forwarded _ _ _ _ _ Hmsg).
  destruct (IH (fun k => clock (S k)) s Hne Hin Hall) as [IH1 IH2].
  destruct (run _ (Message sid <$> evs) s) as [s2 out2]. cbn [fst snd] in *.
  split; [done |].
  rewrite received_app, received_socket_to, IH2, Hroom.
  rewrite decide_True by done.
  cbn [omap list_omap]. by rewrite Hmsg.
Qed.

Lemma chunk_msgs_room_events sid room fid file cs m :
  forall off idx,
    Forall (fun m => is_Some (forwarded sid m) ∧ room_of m = room)
           (chunk_msgs m room fid file cs off idx).
Proof.
  induction m as [|m IH]; intros off idx; cbn [chunk_msgs]; constructor.
  - split; [eexists; reflexivity | reflexivity].
  - apply IH.
Qed.

Lemma sendFile_room_events sid now fname c :
  Forall (fun m => is_Some (forwarded sid m) ∧ room_of m = currentRoom c)
         (sendFile now fname c).2.
Proof.
  unfold sendFile. destruct (filesToSend c !! fname) as [file|]; [| constructor].
  case_decide; [constructor |]. cbn [snd].
  constructor; [split; [eexists; reflexivity | reflexivity] |].
  rewrite sendNextChunk_chunk_msgs. apply Forall_app. split.
  - apply chunk_msgs_room_events.
  - constructor; [| constructor]. split; [eexists; reflexivity | reflexivity].
Qed.

(** What the relay hands a member of the room for one [sendFile]. *)
Lemma arrivals_of_transfer clock sid rid room srv now fname c :
  currentRoom c = Some room -> rid ≠ sid ->
  rid ∈ Server.adapter srv !!! room ->
  Server.received rid
    (Server.run clock (Server.Message sid <$> (sendFile now fname c).2) srv).2
  = omap (forwarded sid) (sendFile now fname c).2.
Proof.
  intros Hroom Hne Hin.
  apply (run_room_events sid rid (Some room)); [done | done |].
  rewrite <- Hroom. apply sendFile_room_events.
Qed.

Lemma elem_of_socket_to rid msg ad room sid m :
  (rid, msg) ∈ socket_to ad room sid m
  <-> msg = m /\ rid ∈ members ad room /\ rid ≠ sid.
Proof.
  unfold socket_to. rewrite list_elem_of_fmap. split.
  - intros (r & [= -> ->] & Hr). apply elem_of_elements in Hr. set_solver.
  - intros (-> & Hin & Hne). exists rid. split; [done |].
    apply elem_of_elements. set_solver.
Qed.

Lemma elem_of_io_to rid msg ad room m :
  (rid, msg) ∈ io_to ad room m <-> msg = m /\ rid ∈ members ad room.
Proof.
  unfold io_to. rewrite list_elem_of_fmap. split.
  - intros (r & [= -> ->] & Hr). by apply elem_of_elements in Hr.
  - intros (-> & Hin). exists rid. split; [done |]. by apply elem_of_elements.
Qed.

Lemma lookup_total_without (ad : gmap string (gset string)) sid r :
  ((fun ms => ms ∖ {[sid]}) <$> ad) !!! r = (ad !!! r) ∖ {[sid]}.
Proof.
  rewrite !lookup_total_alt, lookup_fmap.
  destruct (ad !! r); cbn; [done | set_solver].
Qed.

End Relay.

(** ** Chunk arrivals commute *)

Section ArrivalOrder.

Lemma array_set_lookup {A} (l : list (option A)) (i : nat) (v : A) (k : nat) :
  array_set l i v !! k
  = if decide (k = i) then Some (Some v)
    else if decide (k < length l)%nat then l !! k
    else if decide (k < i)%nat then Some None else None.
Proof.
  unfold array_set. destruct (decide (i < length l)%nat) as [Hin | Hout].
  - rewrite list_lookup_insert.
    destruct (decide (k = i)) as [-> | Hne].
    + by rewrite decide_True by done.
    + rewrite decide_False by naive_solver.
      destruct (decide (k < length l)%nat); [done |].
      rewrite lookup_ge_None_2 by lia.
      by rewrite decide_False by lia.
  - destruct (decide (k = i)) as [-> | Hne].
    + rewrite lookup_app_r by lia. rewrite lookup_app_r by (rewrite length_replicate; lia).
      rewrite length_replicate. by rewrite Nat.sub_diag.
    + destruct (decide (k < length l)%nat) as [Hk | Hk].
      * by rewrite lookup_app_l by done.
      * rewrite lookup_app_r by lia.
        destruct (decide (k < i)%nat).
        -- rewrite lookup_app_l by (rewrite length_replicate; lia).
           apply lookup_replicate_2. lia.
        -- apply lookup_ge_None_2.
           rewrite length_app, length_replicate. cbn. lia.
Qed.

Lemma array_set_length {A} (l : list (option A)) (i : nat) (v : A) :
  length (array_set l i v) = (length l `max` S i)%nat.
Proof.
  unfold array_set. case_decide.
  - rewrite length_insert. lia.
  - rewrite !length_app, length_replicate. cbn. lia.
Qed.

(** Assignments at two different indices commute. *)
Lemma array_set_comm {A} (l : list (option A)) (i j : nat) (a b : A) :
  i ≠ j ->
  array_set (array_set l i a) j b = array_set (array_set l j b) i a.
Proof.
  intros Hij. apply list_eq. intros k.
  rewrite !array_set_lookup, !array_set_length.
  repeat case_decide; try done; try lia.
Qed.

Lemma store_chunk_comm i j a b fi :
  i ≠ j ->
  store_chunk j b (store_chunk i a fi) = store_chunk i a (store_chunk j b fi).
Proof.
  intros Hij. unfold store_chunk. cbn. f_equal.
  - by apply array_set_comm.
  - lia.
Qed.

Lemma handleFileChunk_lookup fid idx data c fid' :
  receivingFiles (handleFileChunk fid idx data c) !! fid'
  = match atob data with
    | Some bin =>
        if decide (fid = fid')
        then store_chunk idx (Uint8Array_of_binary bin) <$> receivingFiles c !! fid'
        else receivingFiles c !! fid'
    | None => receivingFiles c !! fid'
    end.
Proof.
  unfold handleFileChunk.
  destruct (receivingFiles c !! fid) as [fi|] eqn:Hfi.
  - destruct (atob data) as [bin|]; [| done].
    cbn [receivingFiles set_receivingFiles]. rewrite lookup_insert.
    case_decide as Heq; [subst; by rewrite Hfi | done].
  - destruct (atob data) as [bin|]; [| done].
    case_decide as Heq; [subst; by rewrite Hfi | done].
Qed.

Lemma handleFileChunk_other_fields fid idx data c :
  handleFileChunk fid idx data c
  = set_receivingFiles (receivingFiles (handleFileChunk fid idx data c)) c.
Proof.
  unfold handleFileChunk.
  destruct (receivingFiles c !! fid); [| by rewrite set_receivingFiles_id].
  destruct (atob data); [done | by rewrite set_receivingFiles_id].
Qed.

(** Two chunk arrivals for different slots commute. *)
Lemma handleFileChunk_comm fid1 i1 d1 fid2 i2 d2 c :
  (fid1, i1) ≠ (fid2, i2) ->
  handleFileChunk fid2 i2 d2 (handleFileChunk fid1 i1 d1 c)
  = handleFileChunk fid1 i1 d1 (handleFileChunk fid2 i2 d2 c).
Proof.
  intros Hne.
  rewrite (handleFileChunk_other_fields fid2), (handleFileChunk_other_fields fid1 _ _ (handleFileChunk fid2 _ _ _)).
  rewrite (handleFileChunk_other_fields fid1 i1 d1 c) at 2.
  rewrite (handleFileChunk_other_fields fid2 i2 d2 c) at 2.
  rewrite !set_receivingFiles_twice. f_equal.
  apply map_eq. intros k. rewrite !handleFileChunk_lookup.
  destruct (atob d1) as [b1|], (atob d2) as [b2|]; try done.
  destruct (decide (fid1 = k)) as [-> | H1], (decide (fid2 = k)) as [-> | H2];
    try done.
  destruct (receivingFiles c !! k) as [fi|]; [| done]. cbn. f_equal.
  apply store_chunk_comm. congruence.
Qed.

Lemma receive_chunks_perm ms ms' :
  ms ≡ₚ ms' ->
  Forall (fun m => is_Some (chunk_slot m)) ms ->
  NoDup (chunk_slot <$> ms) ->
  forall clock c, receive clock ms c = receive clock ms' c.
Proof.
  induction 1 as [|m ms ms' Hp IH|m1 m2 ms|ms1 ms2 ms3 Hp1 IH1 Hp2 IH2];
    intros Hall Hnd clock c.
  - done.
  - apply Forall_cons in Hall as [_ Hall].
    rewrite fmap_cons in Hnd. apply NoDup_cons in Hnd as [_ Hnd].
    cbn [receive]. destruct (on_message _ m c) as [c1 out1].
    by rewrite IH.
  - apply Forall_cons in Hall as [[s2 H2] Hall].
    apply Forall_cons in Hall as [[s1 H1] Hall].
    rewrite !fmap_cons in Hnd. apply NoDup_cons in Hnd as [Hne _].
    assert (s2 ≠ s1) as Hslots.
    { intros ->. apply Hne. rewrite H2, H1. left. }
    destruct m1; try discriminate. destruct m2; try discriminate.
    cbn in H1, H2. injection H1 as <-. injection H2 as <-.
    cbn [receive on_message app].
    rewrite (handleFileChunk_comm fileId0 chunkIndex0 data0 fileId chunkIndex data)
      by done.
    done.
  - rewrite IH1 by done. apply IH2.
    + by rewrite <- Hp1.
    + by rewrite <- Hp1.
Qed.

End ArrivalOrder.

(** ** The rate limiter *)

Section RateLimiter.

Lemma checkRateLimit_spec now sid rl :
  let recent := filter (in_window now) (default [] (rl !! sid)) in
  checkRateLimit now sid rl
  = if decide (length recent < 30)%nat
    then (true, <[sid := recent ++ [now]]> rl)
    else (false, rl).
Proof.
  cbv zeta. unfold checkRateLimit, MAX_REQUESTS_PER_WINDOW.
  repeat case_decide; (done || lia).
Qed.

Lemma filter_ext_Forall {A} (P Q : A -> Prop)
    `{!forall x, Decision (P x)} `{!forall x, Decision (Q x)} (l : list A) :
  Forall (fun x => P x <-> Q x) l -> filter P l = filter Q l.
Proof.
  induction 1 as [|x l Hx _ IH]; [done |].
  rewrite !filter_cons, IH. repeat case_decide; naive_solver.
Qed.

Lemma filter_all {A} (P : A -> Prop) `{!forall x, Decision (P x)} (l : list A) :
  Forall P l -> filter P l = l.
Proof.
  induction 1 as [|x l Hx _ IH]; [done |].
  by rewrite filter_cons_True, IH.
Qed.

Lemma filter_window_ext now (l : list Z) :
  Forall (fun t => t <= now) l ->
  filter (in_window now) l = filter (trailing_window now) l.
Proof.
  intros Hall. apply filter_ext_Forall.
  eapply Forall_impl; [exact Hall |].
  intros t Ht. cbn beta in *.
  unfold in_window, trailing_window, RATE_LIMIT_WINDOW. lia.
Qed.

Lemma attempts_in_window lo sid times :
  Forall (fun t => lo <= t < lo + RATE_LIMIT_WINDOW) times ->
  forall rl,
    Forall (fun t => lo <= t < lo + RATE_LIMIT_WINDOW) (default [] (rl !! sid)) ->
    attempts times sid rl
    = (fun i => bool_decide (i < 30)%nat)
        <$> seq (length (default [] (rl !! sid))) (length times).
Proof.
  induction 1 as [|now times Hnow Htimes IH]; intros rl Hrec; [done |].
  cbn [attempts length seq]. rewrite fmap_cons.
  rewrite checkRateLimit_spec. cbv zeta.
  assert (Hall : filter (in_window now) (default [] (rl !! sid))
                 = default [] (rl !! sid)).
  { apply filter_all. eapply Forall_impl; [exact Hrec |].
    intros t Ht. cbn beta in *. unfold in_window. lia. }
  rewrite Hall. case_decide as Hlt.
  - rewrite bool_decide_eq_true_2 by done. f_equal.
    rewrite IH.
    + rewrite lookup_insert_eq. cbn [default from_option id].
      rewrite length_app. cbn [length]. by rewrite Nat.add_1_r.
    + rewrite lookup_insert_eq. cbn [default from_option id].
      apply Forall_app. split; [done |]. by constructor.
  - rewrite bool_decide_eq_false_2 by done. f_equal.
    rewrite IH by done.
    apply list_eq. intros k. rewrite !list_lookup_fmap.
    destruct (decide (k < length times)%nat).
    + rewrite !lookup_seq_lt by done. cbn.
      by rewrite !bool_decide_eq_false_2 by lia.
    + by rewrite !lookup_seq_ge by lia.
Qed.

Lemma filter_window_later now now' (l : list Z) :
  now <= now' ->
  filter (in_window now') (filter (in_window now) l) = filter (in_window now') l.
Proof.
  intros Hle. induction l as [|t l IH]; [done |].
  destruct (decide (in_window now t)) as [Hin | Hout].
  - rewrite (filter_cons_True (in_window now)) by done.
    rewrite !filter_cons. case_decide; by rewrite IH.
  - rewrite (filter_cons_False (in_window now)) by done.
    rewrite (filter_cons_False (in_window now')); [exact IH |].
    unfold in_window in *. lia.
Qed.

(** The sweep drops only timestamps that no later check would count. *)
Lemma sweep_keeps_recent now now' sid s :
  now <= now' ->
  filter (in_window now') (default [] (rateLimit (sweep now s) !! sid))
  = filter (in_window now') (default [] (rateLimit s !! sid)).
Proof.
  intros Hle. unfold sweep. cbn [rateLimit]. rewrite lookup_omap.
  destruct (rateLimit s !! sid) as [l|]; [| done].
  cbn [mbind option_bind]. unfold prune. case_decide as Hlen.
  - apply nil_length_inv in Hlen. cbn [default from_option id].
    by rewrite <- (filter_window_later now now' l Hle), Hlen.
  - cbn [default from_option id]. by apply filter_window_later.
Qed.

Lemma sweep_keeps_decision now now' sid s :
  now <= now' ->
  (checkRateLimit now' sid (rateLimit (sweep now s))).1
  = (checkRateLimit now' sid (rateLimit s)).1.
Proof.
  intros Hle. rewrite !checkRateLimit_spec. cbv zeta.
  rewrite (sweep_keeps_recent now now' sid s Hle).
  by repeat case_decide.
Qed.

End RateLimiter.

(** ** The join handler *)

Section Join.

Lemma room_full_true rs r :
  room_full rs r = true <-> exists users, rs !! r = Some users /\ (10 <= size users)%nat.
Proof.
  unfold room_full, MAX_ROOM_SIZE. destruct (rs !! r) as [users|].
  - rewrite bool_decide_eq_true. naive_solver.
  - naive_solver.
Qed.

(** The four ways out of the join handler, by the tests it makes. *)
Lemma join_room_cases now sid roomId s :
  let rl := (checkRateLimit now sid (rateLimit s)).2 in
  (rate_denied now sid s
   /\ join_room now sid roomId s
      = (set_rateLimit rl s, [(sid, Error "Too many requests. Please wait.")]))
  \/ (~ rate_denied now sid s /\ malformed roomId
      /\ exists msg,
          join_room now sid roomId s = (set_rateLimit rl s, [(sid, Error msg)])
          /\ msg ≠ "Too many requests. Please wait."%string)
  \/ (~ rate_denied now sid s /\ ~ malformed roomId /\ target_full roomId s
      /\ join_room now sid roomId s
         = (set_rateLimit rl s,
            [(sid, Error "Room is full. Maximum 10 users allowed.")]))
  \/ (~ rate_denied now sid s /\ ~ malformed roomId /\ ~ target_full roomId s
      /\ exists raw, roomId = VString raw
         /\ sid ∈ rooms (join_room now sid roomId s).1 !!! sanitizeRoomId raw).
Proof.
  cbv zeta. unfold join_room, rate_denied.
  destruct (checkRateLimit now sid (rateLimit s)) as [[|] rl]; cbn [fst snd negb].
  2:{ left. done. }
  right.
  destruct roomId as [raw|].
  2:{ left. split; [done |]. split; [done |]. eexists. split; [done | done]. }
  destruct (decide (raw = ""%string)) as [-> | Hraw].
  { left. split; [done |]. split; [by left |]. eexists; split; done. }
  assert (Hmatch : forall (A : Type) (a b : A),
             match raw with "" => a | String _ _ => b end = b)
    by (intros; by destruct raw).
  rewrite Hmatch.
  destruct (validateRoomId (sanitizeRoomId raw)) eqn:Hvalid; cbn [negb].
  2:{ left. split; [done |]. split; [by right |]. eexists; split; done. }
  right.
  assert (Hwell : ~ malformed (VString raw)).
  { intros [? | ?]; congruence. }
  destruct (room_full (rooms (set_rateLimit rl s)) (sanitizeRoomId raw)) eqn:Hfull.
  - left. split; [done |]. split; [done |]. split; [| done].
    by apply room_full_true in Hfull.
  - right. split; [done |]. split; [done |]. split.
    + intros Hf. apply room_full_true in Hf. cbn [rooms set_rateLimit] in Hfull. congruence.
    + exists raw. split; [done |]. cbn [fst rooms set_rateLimit].
      rewrite lookup_total_alt, lookup_alter_eq.
      destruct (rooms s !! sanitizeRoomId raw) as [users|] eqn:Hr.
      * rewrite Hr. cbn. set_solver.
      * rewrite lookup_insert_eq. cbn. set_solver.
Qed.

Lemma char_toUpperCase_upper_or_digit c :
  is_upper_or_digit c = true -> char_toUpperCase c = c.
Proof.
  unfold is_upper_or_digit, char_toUpperCase.
  cbv zeta. set (n := nat_of_ascii c). intros H.
  destruct ((97 <=? n)%nat && (n <=? 122)%nat) eqn:E; [| done].
  exfalso.
  repeat match goal with
         | H : (_ && _)%bool = true |- _ => apply andb_prop in H as [? ?]
         | H : (_ || _)%bool = true |- _ => apply orb_prop in H as [? | ?]
         | H : (_ <=? _)%nat = true |- _ => apply Nat.leb_le in H
         end; lia.
Qed.

(** The [toUpperCase] of [sanitizeRoomId] never changes anything: the
    lowercase letters are gone before it runs. *)
Lemma sanitizeRoomId_strips raw :
  sanitizeRoomId raw
  = string_of_list_ascii
      (take 6 (List.filter is_upper_or_digit (list_ascii_of_string raw))).
Proof.
  unfold sanitizeRoomId, toUpperCase.
  rewrite list_ascii_of_string_of_list_ascii. f_equal.
  set (l := List.filter _ _).
  assert (Hl : Forall (fun c => is_upper_or_digit c = true) l).
  { apply Forall_forall. intros c Hc%list_elem_of_In.
    by apply filter_In in Hc as [_ ?]. }
  rewrite <- (map_id (take 6 l)) at 2. apply map_ext_in.
  intros c Hc. apply char_toUpperCase_upper_or_digit.
  rewrite Forall_forall in Hl. apply Hl.
  apply list_elem_of_In in Hc. by apply (subseteq_take 6 l).
Qed.

(** On a raw code without lowercase letters the handler's sanitisation
    is the described one. *)
Lemma sanitizeRoomId_described raw :
  Forall (fun c => is_alphanumeric c = is_upper_or_digit c)
         (list_ascii_of_string raw) ->
  sanitizeRoomId raw = described_sanitize raw.
Proof.
  intros Hraw. rewrite sanitizeRoomId_strips. unfold described_sanitize.
  f_equal. f_equal.
  assert (Hf : List.filter is_alphanumeric (list_ascii_of_string raw)
               = List.filter is_upper_or_digit (list_ascii_of_string raw)).
  { apply filter_ext_in. intros c Hc%list_elem_of_In.
    rewrite Forall_forall in Hraw. by apply Hraw. }
  rewrite Hf. set (l := List.filter _ _).
  rewrite <- (map_id l) at 1. apply map_ext_in.
  intros c Hc. symmetry. apply char_toUpperCase_upper_or_digit.
  unfold l in Hc. by apply filter_In in Hc as [_ ?].
Qed.

End Join.

(** ** Join and leave notifications *)

Section Notifications.

(** The join handler on a request that passes its three tests. *)
Lemma join_room_accepted now sid raw s :
  ~ rate_denied now sid s -> ~ malformed (VString raw) ->
  ~ target_full (VString raw) s ->
  let r := sanitizeRoomId raw in
  let ad := <[r := {[sid]} ∪ adapter s !!! r]> (adapter s) in
  let users := {[sid]} ∪ room_members s r in
  join_room now sid (VString raw) s
  = (State (checkRateLimit now sid (rateLimit s)).2
           (<[r := users]> (rooms s)) ad (sockets s),
     socket_emit sid (UsersInRoom (filter (fun id => id ≠ sid) (elements users)))
     ++ socket_to ad (Some r) sid (UserJoined sid)
     ++ io_to ad (Some r) (RoomStatus r (size users) (elements users))).
Proof.
  intros Hrate Hform Hfull. cbv zeta.
  unfold rate_denied in Hrate. unfold join_room.
  destruct (checkRateLimit now sid (rateLimit s)) as [[|] rl]; [| done].
  cbn [negb fst snd]. destruct raw as [|a raw]; [exfalso; apply Hform; by left |].
  set (r := sanitizeRoomId (String a raw)) in *.
  destruct (validateRoomId r) eqn:Hv; [| exfalso; apply Hform; by right].
  cbn [negb]. destruct (room_full _ r) eqn:Hf.
  { exfalso. apply Hfull. by apply room_full_true in Hf. }
  cbn [rooms set_rateLimit adapter sockets rateLimit].
  assert (Hrooms :
            alter (fun users => {[sid]} ∪ users) r
              match rooms s !! r with
              | Some _ => rooms s
              | None => <[r := ∅]> (rooms s)
              end
            = <[r := {[sid]} ∪ room_members s r]> (rooms s)).
  { unfold room_members. apply map_eq. intros k.
    destruct (decide (k = r)) as [-> | Hne].
    - rewrite lookup_alter_eq, lookup_insert_eq.
      destruct (rooms s !! r) as [users|] eqn:Hr.
      + by rewrite Hr.
      + by rewrite lookup_insert_eq.
    - rewrite lookup_alter_ne, lookup_insert_ne by done.
      destruct (rooms s !! r); [done | by rewrite lookup_insert_ne]. }
  rewrite Hrooms. rewrite lookup_total_insert_eq. reflexivity.
Qed.

(** The notification of a join: to the other members of the room joined,
    when the join is accepted, and to nobody when it is refused. *)
Lemma join_room_notifies now sid roomId s rid msg :
  is_Some (sender_tag msg) ->
  (rid, msg) ∈ (join_room now sid roomId s).2
  <-> join_accepted now sid roomId s
      /\ msg = UserJoined sid
      /\ rid ∈ members (adapter (join_room now sid roomId s).1)
                       (named_room (JoinRoom roomId))
      /\ rid ≠ sid.
Proof.
  intros Htag. unfold join_accepted.
  destruct (join_room_cases now sid roomId s)
    as [(Hd & Heq) | [(Hnd & Hm & m & Heq & _) | [(Hnd & Hnm & Hf & Heq)
        | (Hnd & Hnm & Hnf & raw & -> & _)]]].
  1-3: rewrite Heq; cbn [fst snd]; split;
         [intros [= -> ->]%list_elem_of_singleton; by destruct Htag as [? [=]]
         | intros ((? & ? & ?) & _); done].
  rewrite (join_room_accepted now sid raw s Hnd Hnm Hnf).
  cbn [fst snd adapter named_room members].
  rewrite !elem_of_app, elem_of_socket_to, elem_of_io_to. cbn [members].
  split.
  - intros [[= -> ->]%list_elem_of_singleton | [(-> & Hin & Hne) | [-> _]]];
      by destruct Htag as [? [=]].
  - intros (_ & -> & Hin & Hne). right. left. done.
Qed.

(** The notification of a leave: sent when the registry holds the
    connection in the room named, to those socket.io leaves in it. *)
Lemma leave_room_notifies sid roomId s rid msg :
  (rid, msg) ∈ (leave_room sid roomId s).2
  <-> (exists r, roomId = VString r /\ sid ∈ room_members s r)
      /\ msg = UserLeft sid
      /\ rid ∈ members (adapter (leave_room sid roomId s).1)
                       (named_room (LeaveRoom roomId))
      /\ rid ≠ sid.
Proof.
  unfold leave_room, room_members. destruct roomId as [r|].
  2:{ split; [by intros ?%elem_of_nil | by intros ((? & [=] & _) & _)]. }
  destruct (rooms s !! r) as [users|] eqn:Hr; cbn [default].
  2:{ split; [by intros ?%elem_of_nil |].
      intros ((r' & [= <-] & Hin) & _). rewrite Hr in Hin. set_solver. }
  case_decide as Hmem.
  - cbn [fst snd adapter named_room]. rewrite elem_of_socket_to.
    split; [intros (-> & Hin & Hne) | intros (_ & -> & Hin & Hne)]; [| done].
    split; [| done]. exists r. split; [done |]. by rewrite Hr.
  - split; [by intros ?%elem_of_nil |].
    intros ((r' & [= <-] & Hin) & _). rewrite Hr in Hin. done.
Qed.

(** The notifications of a disconnection: one per room in which the
    registry holds the connection, to those socket.io has left in it. *)
Lemma disconnect_notifies sid s rid msg :
  (rid, msg) ∈ (disconnect sid s).2
  <-> msg = UserLeft sid /\ rid ≠ sid
      /\ exists r, sid ∈ room_members s r
                   /\ rid ∈ adapter (disconnect sid s).1 !!! r.
Proof.
  unfold disconnect. cbn [fst snd adapter]. rewrite list_elem_of_join. split.
  - intros (l & Hin & Hl).
    apply list_elem_of_fmap in Hl as ([r users] & -> & Hru).
    apply elem_of_map_to_list in Hru.
    case_decide as Hmem; [| by apply elem_of_nil in Hin].
    apply elem_of_io_to in Hin as [-> Hin]. cbn [members] in Hin.
    split; [done |]. split.
    + rewrite lookup_total_without in Hin. set_solver.
    + exists r. split; [| done]. unfold room_members. by rewrite Hru.
  - intros (-> & Hne & r & Hmem & Hin).
    unfold room_members in Hmem.
    destruct (rooms s !! r) as [users|] eqn:Hr; cbn [default] in Hmem;
      [| set_solver].
    exists (io_to ((fun ms => ms ∖ {[sid]}) <$> adapter s) (Some r) (UserLeft sid)).
    split; [by apply elem_of_io_to |].
    apply list_elem_of_fmap. exists (r, users). split.
    + by rewrite decide_True.
    + by apply elem_of_map_to_list.
Qed.

(** What the relays hand out carries a sender tag only for the three
    file events. *)
Lemma relay_tagged sid m s rid msg :
  (rid, msg) ∈ relay sid m s -> is_Some (sender_tag msg) ->
  forwarded sid m = Some msg.
Proof.
  destruct m; cbn [relay]; try (by intros ?%elem_of_nil);
    rewrite elem_of_socket_to; intros (-> & _ & _); intros [? [=]]; done.
Qed.

End Notifications.

(** ** The room registry *)

Section Registry.

Lemma registry_invariant_alt s : registry_invariant s <-> rooms_ok (rooms s).
Proof.
  unfold registry_invariant, rooms_ok, room_members. split.
  - intros H r users Hr. specialize (H r). rewrite Hr in H. cbn in H.
    destruct H as [H1 H2]. split; [apply H1; eauto | done].
  - intros H r. destruct (rooms s !! r) as [users|] eqn:Hr; cbn.
    + destruct (H r users Hr). split; [| done]. split; eauto.
    + split; [| rewrite size_empty; lia].
      split; [by intros [? ?] | done].
Qed.

Lemma rooms_ok_empty : rooms_ok ∅.
Proof. intros r users Hr. by rewrite lookup_empty in Hr. Qed.

Lemma join_room_rooms_ok now sid roomId s :
  rooms_ok (rooms s) -> rooms_ok (rooms (join_room now sid roomId s).1).
Proof.
  intros Hok.
  destruct (join_room_cases now sid roomId s)
    as [[_ ->] | [(_ & _ & msg & -> & _) | [(_ & _ & _ & ->)
       | (H1 & H2 & H3 & raw & -> & _)]]]; try done.
  unfold rate_denied in H1. unfold join_room.
  destruct (checkRateLimit now sid (rateLimit s)) as [[|] rl]; [| done].
  cbn [negb]. destruct raw as [|a raw]; [done |].
  set (r := sanitizeRoomId (String a raw)) in *.
  destruct (validateRoomId r); [| done]. cbn [negb].
  destruct (room_full _ r) eqn:Hfull; [done |].
  cbn [fst rooms set_rateLimit] in *.
  intros r' users'. destruct (decide (r' = r)) as [-> | Hne].
  - rewrite lookup_alter_eq.
    unfold room_full, MAX_ROOM_SIZE in Hfull.
    destruct (rooms s !! r) as [users|] eqn:Hr.
    + rewrite Hr. cbn. intros [= <-].
      apply bool_decide_eq_false in Hfull.
      split; [set_solver |].
      pose proof (size_union_alt {[sid]} users) as Hsz.
      rewrite size_singleton in Hsz.
      assert (size (users ∖ {[sid]}) <= size users)%nat
        by (apply subseteq_size; set_solver).
      lia.
    + rewrite lookup_insert_eq. cbn. intros [= <-].
      split; [set_solver |].
      rewrite union_empty_r_L, size_singleton. lia.
  - rewrite lookup_alter_ne by done.
    destruct (rooms s !! r) as [users|] eqn:Hr.
    + apply Hok.
    + rewrite lookup_insert_ne by done. apply Hok.
Qed.

Lemma leave_room_rooms_ok sid roomId s :
  rooms_ok (rooms s) -> rooms_ok (rooms (leave_room sid roomId s).1).
Proof.
  intros Hok. unfold leave_room.
  destruct roomId as [r|]; [| done].
  destruct (rooms s !! r) as [users|] eqn:Hr; [| done].
  case_decide as Hin; [| done]. cbn [fst rooms].
  intros r' users'. case_decide as Hsz.
  - rewrite lookup_delete. case_decide; [done |].
    rewrite lookup_alter_ne by done. apply Hok.
  - destruct (decide (r' = r)) as [-> | Hne].
    + rewrite lookup_alter_eq, Hr. cbn. intros [= <-].
      split; [intros Heq; rewrite Heq, size_empty in *; done |].
      destruct (Hok r users Hr) as [_ ?].
      assert (size (users ∖ {[sid]}) <= size users)%nat
        by (apply subseteq_size; set_solver).
      lia.
    + rewrite lookup_alter_ne by done. apply Hok.
Qed.

Lemma disconnect_rooms_ok sid s :
  rooms_ok (rooms s) -> rooms_ok (rooms (disconnect sid s).1).
Proof.
  intros Hok r users'. unfold disconnect. cbn [fst rooms].
  rewrite lookup_omap.
  destruct (rooms s !! r) as [users|] eqn:Hr; [| done]. cbn.
  unfold drop_member. repeat case_decide; try done.
  - intros [= <-]. split; [intros Heq; rewrite Heq, size_empty in *; done |].
    destruct (Hok r users Hr) as [_ ?].
    assert (size (users ∖ {[sid]}) <= size users)%nat
      by (apply subseteq_size; set_solver).
    lia.
  - intros [= <-]. by apply (Hok r).
Qed.

Lemma sweep_rooms_ok now s :
  rooms_ok (rooms s) -> rooms_ok (rooms (sweep now s)).
Proof.
  intros Hok r users. unfold sweep. cbn [rooms].
  intros [Hr _]%map_lookup_filter_Some. by apply (Hok r).
Qed.

Lemma step_rooms_ok now e s :
  rooms_ok (rooms s) -> rooms_ok (rooms (step now e s).1).
Proof.
  intros Hok. destruct e as [sid | sid m | sid |]; cbn [step fst].
  - done.
  - destruct m; try done.
    + by apply join_room_rooms_ok.
    + by apply leave_room_rooms_ok.
  - by apply disconnect_rooms_ok.
  - by apply sweep_rooms_ok.
Qed.

End Registry.

(** ** The liveness route *)

Section HealthRoute.

Lemma Math_round_nearest q :
  (inject_Z (Http.Math_round q) - (1 # 2) <= q)%Q
  /\ (q < inject_Z (Http.Math_round q) + (1 # 2))%Q.
Proof.
  unfold Http.Math_round.
  pose proof (Qfloor_le (q + (1 # 2))) as Hle.
  pose proof (Qlt_floor (q + (1 # 2))) as Hlt.
  rewrite inject_Z_plus in Hlt. change (inject_Z 1) with 1%Q in Hlt.
  split; lra.
Qed.

(** A probe passes [cors()] and, with no file named [health] under
    [public], the static files. *)
Lemma probe_passes_static e :
  "health" ∉ Http.public_dir e ->
  Http.cors Http.probe = None /\ Http.express_static e Http.probe = None.
Proof.
  intros Hfile. split; [reflexivity |].
  unfold Http.express_static. cbn.
  by rewrite bool_decide_eq_false_2.
Qed.

(** No request is answered with a JSON body by the layers of
    [server.js]. *)
Lemma app_never_answers_json e req o :
  Http.body (Http.respond Http.app e req) ≠ Http.Json o.
Proof.
  unfold Http.app. cbn [Http.respond].
  unfold Http.cors, Http.express_static, Http.index, Http.res_sendFile.
  destruct (String.eqb (Http.method req) "OPTIONS"); [discriminate |].
  destruct (String.eqb (Http.method req) "GET" || String.eqb (Http.method req) "HEAD").
  - destruct (Http.file_of_path (Http.path req)) as [f|].
    + destruct (bool_decide (f ∈ Http.public_dir e)).
      * cbn. by destruct (String.eqb (Http.method req) "HEAD").
      * destruct (_ && _); [| discriminate].
        by destruct (bool_decide _).
    + destruct (_ && _); [| discriminate].
      by destruct (bool_decide _).
  - destruct (_ && _); [| discriminate].
    by destruct (bool_decide _).
Qed.

End HealthRoute.

(** ** The properties of the specification *)

(** C1.  A file sent with [sendFile], relayed by the server to another
    member of the room and handled there by the three transfer listeners,
    is rebuilt byte for byte: the receiver creates one download link, whose
    blob has the contents, the type and the size of the source file.  With
    the constructor's chunk size a file of 131082 bytes arrives as three
    chunks of 65536, 65536 and 10 bytes, the last flag set on the third
    only. *)
Theorem transfer_reconstructs_file
    (now : Z) (fname : string) (file : File) (c rc : client)
    (sid rid room : string) (srv : Server.state) (clock clock' : nat -> Z) :
  filesToSend c !! fname = Some file ->
  size (connectedPeers c) ≠ 0%nat ->
  currentRoom c = Some room ->
  rid ≠ sid ->
  rid ∈ Server.adapter srv !!! room ->
  let emitted := (sendFile now fname c).2 in
  let arrivals :=
    Server.received rid
      (Server.run clock (Server.Message sid <$> emitted) srv).2 in
  (exists blob,
      (receive clock' arrivals rc).2
      = [CreateDownloadLink (name file) blob (pretty now)]
      /\ blob_bytes blob = contents file
      /\ blob_type blob = type file
      /\ Z.of_nat (length (blob_bytes blob)) = file_size file)
  /\ (fileChunkSize c = 65536%positive ->
      file_size file = 131082 ->
      exists p0 p1 p2,
        arrivals
        = [Server.FileInfoFrom (pretty now) (name file) 131082 (type file) sid;
           Server.FileChunkFrom (pretty now) 0
             (btoa (String_fromCharCode p0)) false sid;
           Server.FileChunkFrom (pretty now) 1
             (btoa (String_fromCharCode p1)) false sid;
           Server.FileChunkFrom (pretty now) 2
             (btoa (String_fromCharCode p2)) true sid;
           Server.FileCompleteFrom (pretty now) sid]
        /\ Z.of_nat (length p0) = 65536 /\ Z.of_nat (length p1) = 65536
        /\ Z.of_nat (length p2) = 10
        /\ p0 ++ p1 ++ p2 = contents file).
Proof.
  intros Hfile Hpeers Hroom Hne Hin emitted arrivals.
  assert (Harr : arrivals = omap (forwarded sid) emitted)
    by by apply (arrivals_of_transfer clock sid rid room).
  split.
  - exists {| blob_bytes := contents file; blob_type := type file |}.
    rewrite Harr. unfold emitted.
    rewrite (receive_transfer clock' sid now fname file c rc Hfile Hpeers).
    done.
  - intros Hcs Hsize.
    destruct (sendFile_131082 now fname file c Hfile Hpeers Hcs Hsize)
      as (p0 & p1 & p2 & Hem & H0 & H1 & H2 & Hcat).
    exists p0, p1, p2. rewrite Harr. unfold emitted. rewrite Hem.
    done.
Qed.

Lemma transfer_reconstructs_file_witness :
  let emitted := (sendFile 1700000000000 "photo.bin" demo_sender).2 in
  let arrivals :=
    Server.received "peer"
      (Server.run (fun _ => 0) (Server.Message "me" <$> emitted) demo_relay).2 in
  (exists blob,
      (receive (fun _ => 0) arrivals new_client).2
      = [CreateDownloadLink "photo.bin" blob "1700000000000"]
      /\ blob_bytes blob = contents demo_file
      /\ blob_type blob = "application/octet-stream"%string
      /\ Z.of_nat (length (blob_bytes blob)) = 131082)
  /\ exists p0 p1 p2,
        arrivals
        = [Server.FileInfoFrom "1700000000000" "photo.bin" 131082
             "application/octet-stream" "me";
           Server.FileChunkFrom "1700000000000" 0
             (btoa (String_fromCharCode p0)) false "me";
           Server.FileChunkFrom "1700000000000" 1
             (btoa (String_fromCharCode p1)) false "me";
           Server.FileChunkFrom "1700000000000" 2
             (btoa (String_fromCharCode p2)) true "me";
           Server.FileCompleteFrom "1700000000000" "me"]
        /\ Z.of_nat (length p0) = 65536 /\ Z.of_nat (length p1) = 65536
        /\ Z.of_nat (length p2) = 10
        /\ p0 ++ p1 ++ p2 = contents demo_file.
Proof.
  assert (Hsize : file_size demo_file = 131082).
  { unfold file_size, demo_file. cbn [contents].
    rewrite length_replicate. lia. }
  pose proof (transfer_reconstructs_file 1700000000000 "photo.bin" demo_file
                demo_sender new_client "me" "peer" "ACD347" demo_relay
                (fun _ => 0) (fun _ => 0)) as H.
  cbv zeta in H.
  destruct H as [H1 H2].
  - apply lookup_singleton_eq.
  - unfold demo_sender. cbn [connectedPeers]. rewrite size_singleton. lia.
  - reflexivity.
  - discriminate.
  - unfold demo_relay. cbn [Server.adapter].
    rewrite lookup_total_singleton_eq. set_solver.
  - cbv zeta. split.
    + rewrite Hsize in H1. exact H1.
    + apply H2; [reflexivity | exact Hsize].
Defined.

(** C2.  Chunk arrivals that write pairwise different slots (file id and
    chunk index) can be handled in any order: whatever arrives before and
    after them, the receiver ends in the same state and creates the same
    download links, so the artifact rebuilt on completion is the same. *)
Theorem chunk_arrival_order_irrelevant
    (before ms ms' after : list server_msg) (clock : nat -> Z) (c : client) :
  Forall (fun m => is_Some (chunk_slot m)) ms ->
  NoDup (chunk_slot <$> ms) ->
  ms ≡ₚ ms' ->
  receive clock (before ++ ms ++ after) c
  = receive clock (before ++ ms' ++ after) c.
Proof.
  intros Hall Hnd Hp.
  rewrite !(receive_app clock before).
  destruct (receive clock before c) as [c1 out1].
  rewrite !(receive_app _ _ after).
  rewrite (receive_chunks_perm ms ms' Hp Hall Hnd).
  by rewrite (Permutation_length Hp).
Qed.

Lemma chunk_arrival_order_irrelevant_witness :
  receive (fun _ => 0)
    ([demo_info] ++ [demo_chunk0; demo_chunk2; demo_chunk1] ++ [demo_complete])
    new_client
  = receive (fun _ => 0)
      ([demo_info] ++ [demo_chunk0; demo_chunk1; demo_chunk2] ++ [demo_complete])
      new_client.
Proof.
  apply chunk_arrival_order_irrelevant.
  - repeat (constructor; [by eexists |]). constructor.
  - cbn. repeat (apply NoDup_cons_2; [set_solver |]). apply NoDup_nil_2.
  - apply perm_skip, perm_swap.
Defined.

Example out_of_order_artifact :
  (receive (fun _ => 0)
     [demo_info; demo_chunk0; demo_chunk2; demo_chunk1; demo_complete]
     new_client).2
  = [CreateDownloadLink "hello.txt"
       {| blob_bytes := list_byte_of_string "hello world";
          blob_type := "text/plain" |} "7"].
Proof. vm_compute. reflexivity. Qed.

(** A hole in the buffer contributes nothing. *)
Example missing_chunk_artifact :
  (receive (fun _ => 0) [demo_info; demo_chunk0; demo_chunk2; demo_complete]
     new_client).2
  = [CreateDownloadLink "hello.txt"
       {| blob_bytes := list_byte_of_string "hellrld";
          blob_type := "text/plain" |} "7"].
Proof. vm_compute. reflexivity. Qed.

(** C3.  A room code is in [rooms] exactly when its member set is not
    empty, and no member set has more than 10 elements: this holds of the
    initial state and is kept by the join handler, the leave handler, the
    disconnect handler, the periodic sweep and every other event of the
    loop, hence in every state the server reaches. *)
Theorem registry_invariant_preserved :
  registry_invariant init
  /\ (forall now sid roomId s,
         registry_invariant s ->
         registry_invariant (handle now sid (JoinRoom roomId) s).1)
  /\ (forall now sid roomId s,
         registry_invariant s ->
         registry_invariant (handle now sid (LeaveRoom roomId) s).1)
  /\ (forall sid s,
         registry_invariant s -> registry_invariant (disconnect sid s).1)
  /\ (forall now s, registry_invariant s -> registry_invariant (sweep now s))
  /\ (forall now e s,
         registry_invariant s -> registry_invariant (step now e s).1)
  /\ (forall clock es, registry_invariant (run clock es init).1).
Proof.
  assert (Hstep : forall now e s,
             registry_invariant s -> registry_invariant (step now e s).1).
  { intros now e s. rewrite !registry_invariant_alt. apply step_rooms_ok. }
  assert (Hinit : registry_invariant init).
  { apply registry_invariant_alt, rooms_ok_empty. }
  split; [exact Hinit |].
  split; [intros now sid roomId s; apply (Hstep now (Message sid (JoinRoom roomId))) |].
  split; [intros now sid roomId s; apply (Hstep now (Message sid (LeaveRoom roomId))) |].
  split; [intros sid s; apply (Hstep 0 (Disconnect sid)) |].
  split; [intros now s; apply (Hstep now Sweep) |].
  split; [exact Hstep |].
  intros clock es. revert clock. generalize init Hinit.
  induction es as [|e es IH]; intros s Hs clock; [done |].
  cbn [run]. specialize (Hstep (clock 0%nat) e s Hs).
  destruct (step (clock 0%nat) e s) as [s1 out1]. cbn [fst] in Hstep.
  specialize (IH s1 Hstep (fun k => clock (S k))).
  by destruct (run _ es s1) as [s2 out2].
Qed.

Lemma registry_invariant_preserved_witness :
  registry_invariant (handle 0 "a" (JoinRoom (VString "ACD347")) init).1.
Proof.
  apply (proj1 (proj2 registry_invariant_preserved)).
  apply (proj1 registry_invariant_preserved).
Defined.

(** C4.  [checkRateLimit] admits an attempt exactly when fewer than 30 of
    the connection's recorded timestamps are less than 60000 ms old; an
    admitted attempt is recorded behind the recent ones and a refused one
    changes nothing.  With a clock that does not run backwards the recent
    timestamps are those of the trailing window.  Of 31 attempts of a fresh
    connection within one window the first 30 are admitted and the 31st is
    refused. *)
Theorem rate_limiter_window :
  (forall now sid rl,
      let recorded := default [] (rl !! sid) in
      let recent := filter (in_window now) recorded in
      ((checkRateLimit now sid rl).1 = true <-> (length recent < 30)%nat)
      /\ ((checkRateLimit now sid rl).1 = true ->
          (checkRateLimit now sid rl).2 = <[sid := recent ++ [now]]> rl)
      /\ ((checkRateLimit now sid rl).1 = false ->
          (checkRateLimit now sid rl).2 = rl)
      /\ (Forall (fun t => t <= now) recorded ->
          recent = filter (trailing_window now) recorded))
  /\ (forall lo sid times rl,
         rl !! sid = None ->
         length times = 31%nat ->
         Forall (fun t => lo <= t < lo + 60000) times ->
         attempts times sid rl = replicate 30 true ++ [false]).
Proof.
  split.
  - intros now sid rl recorded recent.
    pose proof (checkRateLimit_spec now sid rl) as Hspec. cbv zeta in Hspec.
    fold recorded in Hspec. fold recent in Hspec. rewrite Hspec.
    split; [| split; [| split; [| apply filter_window_ext]]];
      case_decide; cbn [fst snd]; (done || lia || naive_solver).
  - intros lo sid times rl Hfresh Hlen Hall.
    rewrite (attempts_in_window lo) by (done || by rewrite Hfresh).
    rewrite Hfresh, Hlen. reflexivity.
Qed.

Lemma rate_limiter_window_witness :
  attempts (seqZ 1000 31) "s1" ∅ = replicate 30 true ++ [false].
Proof.
  apply (proj2 rate_limiter_window 1000).
  - apply lookup_empty.
  - reflexivity.
  - apply Forall_forall. intros t Ht%elem_of_seqZ. lia.
Defined.

(** The window slides: a 31st attempt a minute after the first is let in. *)
Example attempt_after_window :
  attempts (seqZ 1000 30 ++ [1029; 61000]) "s1" ∅
  = replicate 30 true ++ [false; true].
Proof. vm_compute. reflexivity. Qed.

(** C5.  [sanitizeRoomId] at the raw code [abc123]: the lowercase letters
    are removed before [toUpperCase] runs, leaving [123], which fails
    [validateRoomId], so the join is refused with the format error; the
    sanitisation as described (strip, uppercase, truncate) gives [ABC123],
    which passes. *)
Theorem lowercase_code_is_stripped :
  sanitizeRoomId "abc123" = "123"%string
  /\ validateRoomId (sanitizeRoomId "abc123") = false
  /\ described_sanitize "abc123" = "ABC123"%string
  /\ validateRoomId (described_sanitize "abc123") = true
  /\ forall now sid,
       (join_room now sid (VString "abc123") init).2
       = [(sid, Error "Room code must be 6 alphanumeric characters.")].
Proof.
  repeat split; try reflexivity.
Qed.

(** C6.  A file-info, file-chunk or file-complete event is handed to
    exactly the members of the named socket.io room other than its sender,
    tagged with the sender's id.  The user-joined of a join goes to exactly
    the other members of the room joined (the room of the sanitised code),
    and only when the join is accepted; the user-left of a leave goes to
    exactly the members left in the room named, and only when the registry
    held the connection in it; the user-left of a disconnection goes to
    exactly those left in the rooms in which the registry held the
    connection.  So no event of a connection makes the server hand a file
    event or a join or leave notification to that connection itself: each
    goes to a member of the room the event names and carries the id of the
    connection it comes from. *)
Theorem room_broadcast_skips_sender :
  (forall now sid m s fwd,
      forwarded sid m = Some fwd ->
      sender_tag fwd = Some sid
      /\ forall rid msg,
           (rid, msg) ∈ (handle now sid m s).2
           <-> msg = fwd /\ rid ∈ members (adapter s) (room_of m)
               /\ rid ≠ sid)
  /\ (forall now sid roomId s rid msg,
         is_Some (sender_tag msg) ->
         (rid, msg) ∈ (handle now sid (JoinRoom roomId) s).2
         <-> join_accepted now sid roomId s
             /\ msg = UserJoined sid
             /\ rid ∈ members (adapter (handle now sid (JoinRoom roomId) s).1)
                              (named_room (JoinRoom roomId))
             /\ rid ≠ sid)
  /\ (forall now sid roomId s rid msg,
         (rid, msg) ∈ (handle now sid (LeaveRoom roomId) s).2
         <-> (exists r, roomId = VString r /\ sid ∈ room_members s r)
             /\ msg = UserLeft sid
             /\ rid ∈ members (adapter (handle now sid (LeaveRoom roomId) s).1)
                              (named_room (LeaveRoom roomId))
             /\ rid ≠ sid)
  /\ (forall now sid s rid msg,
         (rid, msg) ∈ (step now (Disconnect sid) s).2
         <-> msg = UserLeft sid /\ rid ≠ sid
             /\ exists r, sid ∈ room_members s r
                          /\ rid ∈ adapter (step now (Disconnect sid) s).1 !!! r)
  /\ (forall now e s sid rid msg,
         origin e = Some sid ->
         (rid, msg) ∈ (step now e s).2 ->
         is_Some (sender_tag msg) ->
         rid ≠ sid /\ sender_tag msg = Some sid
         /\ match e with
            | Message _ m =>
                rid ∈ members (adapter (step now e s).1) (named_room m)
            | _ => exists r, sid ∈ room_members s r
                             /\ rid ∈ adapter (step now e s).1 !!! r
            end).
Proof.
  split; [| split; [| split; [| split]]].
  - intros now sid m s fwd Hfwd.
    rewrite (handle_forwarded now sid m fwd s Hfwd). cbn [snd].
    split; [by destruct m; try discriminate; injection Hfwd as <- |].
    intros rid msg. apply elem_of_socket_to.
  - intros now sid roomId s rid msg. apply join_room_notifies.
  - intros now sid roomId s rid msg. apply leave_room_notifies.
  - intros now sid s rid msg. apply disconnect_notifies.
  - intros now e s sid rid msg Horigin Hin Htag.
    destruct e as [? | sid' m | sid' |]; try discriminate;
      injection Horigin as ->.
    + cbn [step] in *.
      destruct (decide (is_Some (forwarded sid m))) as [[fwd Hfwd] | Hnf].
      * rewrite (handle_forwarded now sid m fwd s Hfwd) in Hin |- *.
        cbn [fst snd] in *.
        apply elem_of_socket_to in Hin as (-> & Hmem & Hne).
        split; [done |]. split.
        -- by destruct m; try discriminate; injection Hfwd as <-.
        -- by destruct m as [| | | | | | | |]; try discriminate.
      * destruct m; cbn [handle] in *;
          try (exfalso; apply Hnf; by eexists).
        -- apply (join_room_notifies _ _ _ _ _ _ Htag) in Hin
             as (_ & -> & Hmem & Hne). done.
        -- apply leave_room_notifies in Hin as (_ & -> & Hmem & Hne). done.
        -- cbn [snd] in Hin. exfalso. apply Hnf.
           rewrite (relay_tagged _ _ _ _ _ Hin Htag). by eexists.
        -- cbn [snd] in Hin. exfalso. apply Hnf.
           rewrite (relay_tagged _ _ _ _ _ Hin Htag). by eexists.
        -- cbn [snd] in Hin. exfalso. apply Hnf.
           rewrite (relay_tagged _ _ _ _ _ Hin Htag). by eexists.
        -- cbn [snd] in Hin. apply list_elem_of_singleton in Hin as [= -> ->].
           by destruct Htag as [? [=]].
    + cbn [step] in *.
      apply disconnect_notifies in Hin as (-> & Hne & Hr). done.
Qed.

Lemma room_broadcast_skips_sender_witness :
  ("a", UserJoined "c")
    ∈ (handle 0 "c" (JoinRoom (VString "ACD347")) demo_pair).2
  /\ "a" ≠ "c"
  /\ sender_tag (UserJoined "c") = Some "c"
  /\ "a" ∈ members
             (adapter (step 0 (Message "c" (JoinRoom (VString "ACD347")))
                         demo_pair).1)
             (named_room (JoinRoom (VString "ACD347"))).
Proof.
  assert (Htag : is_Some (sender_tag (UserJoined "c"))) by (by eexists).
  assert (Hin : ("a", UserJoined "c")
                  ∈ (handle 0 "c" (JoinRoom (VString "ACD347")) demo_pair).2).
  { apply (proj1 (proj2 room_broadcast_skips_sender) 0 "c"
             (VString "ACD347") demo_pair "a" (UserJoined "c") Htag).
    split; [| split; [reflexivity | split; [| discriminate]]].
    - split; [| split].
      + unfold rate_denied. vm_compute. discriminate.
      + intros [H | H]; vm_compute in H; discriminate.
      + intros (users & H & Hsize). vm_compute in H. injection H as <-.
        vm_compute in Hsize. lia.
    - apply (bool_decide_unpack _). vm_compute. exact I. }
  split; [exact Hin |].
  exact (proj2 (proj2 (proj2 (proj2 room_broadcast_skips_sender))) 0
           (Message "c" (JoinRoom (VString "ACD347"))) demo_pair "c" "a"
           (UserJoined "c") eq_refl Hin Htag).
Defined.

Example chunk_fanout :
  (handle 0 "a" (FileChunk (Some "ACD347") "7" 0 "aGk=" true) demo_pair).2
  = [("b", FileChunkFrom "7" 0 "aGk=" true "a")].
Proof. vm_compute. reflexivity. Qed.

(** C7.  For a non-empty file of [n] bytes sent with chunk size 65536 the
    chunk events carry the indices 0, 1, ..., ceil(n/65536) - 1 in order,
    the event of index [i] has [isLast = (i * 65536 + 65536 >= n)], and
    that flag is set exactly on the index ceil(n/65536) - 1. *)
Theorem isLast_only_on_final_chunk now fname file c :
  filesToSend c !! fname = Some file ->
  size (connectedPeers c) ≠ 0%nat ->
  fileChunkSize c = 65536%positive ->
  0 < file_size file ->
  let n := file_size file in
  let count := (n + 65535) / 65536 in
  chunk_flags (sendFile now fname c).2
  = (fun i => (i, bool_decide (Z.of_nat i * 65536 + 65536 >= n)))
      <$> seq 0 (Z.to_nat count)
  /\ forall i isLast,
       (i, isLast) ∈ chunk_flags (sendFile now fname c).2 ->
       0 <= Z.of_nat i < count
       /\ (isLast = true <-> Z.of_nat i = count - 1).
Proof.
  intros Hfile Hpeers Hcs Hpos n count.
  assert (Hflags : chunk_flags (sendFile now fname c).2
                   = (fun i => (i, bool_decide (Z.of_nat i * 65536 + 65536 >= n)))
                       <$> seq 0 (Z.to_nat count)).
  { rewrite (chunk_flags_sendFile _ _ file) by done. rewrite Hcs.
    f_equal. unfold chunk_count, count, n.
    replace (file_size file - 0 + 65536 - 1) with (file_size file + 65535) by lia.
    assert (1 <= (file_size file + 65535) / 65536)
      by (apply Z.div_le_lower_bound; lia).
    f_equal. lia. }
  split; [exact Hflags |].
  intros i isLast. rewrite Hflags.
  intros [j [[= -> ->] Hj]]%list_elem_of_fmap.
  apply elem_of_seq in Hj.
  pose proof (Z.div_mod (n + 65535) 65536 ltac:(lia)) as Hdm.
  pose proof (Z.mod_pos_bound (n + 65535) 65536 ltac:(lia)) as Hmb.
  fold count in Hdm.
  assert (0 <= count) by (apply Z.div_pos; lia).
  split; [lia |].
  rewrite bool_decide_eq_true. lia.
Qed.

Lemma isLast_only_on_final_chunk_witness :
  0 < file_size demo_even_file
  /\ chunk_flags (sendFile 1700000000000 "even.bin" demo_even_sender).2
     = [(0%nat, false); (1%nat, true)].
Proof.
  assert (Hsize : file_size demo_even_file = 131072).
  { unfold file_size, demo_even_file. cbn [contents].
    rewrite length_replicate. lia. }
  split; [rewrite Hsize; lia |].
  destruct (isLast_only_on_final_chunk 1700000000000 "even.bin"
              demo_even_file demo_even_sender) as [H _].
  - apply lookup_singleton_eq.
  - unfold demo_even_sender. cbn [connectedPeers]. rewrite size_singleton. lia.
  - reflexivity.
  - rewrite Hsize. lia.
  - rewrite Hsize in H. exact H.
Defined.

(** C8.  A join that is refused, for the rate limit, for a missing or
    malformed room code or because the room has 10 members, emits one
    error event, to the requesting connection, and leaves [rooms], the
    socket.io rooms and the set of open connections as they were. *)
Theorem rejected_join_leaves_registry now sid roomId s :
  rate_denied now sid s \/ malformed roomId \/ target_full roomId s ->
  let s' := (join_room now sid roomId s).1 in
  let out := (join_room now sid roomId s).2 in
  (exists msg, out = [(sid, Error msg)])
  /\ rooms s' = rooms s
  /\ adapter s' = adapter s
  /\ sockets s' = sockets s.
Proof.
  intros Hrej. cbv zeta.
  destruct (join_room_cases now sid roomId s)
    as [[_ ->] | [(_ & _ & msg & -> & _) | [(_ & _ & _ & ->) | (H1 & H2 & H3 & _)]]];
    [by eauto | by eauto | by eauto | tauto].
Qed.

Lemma rejected_join_leaves_registry_witness :
  let s' := (join_room 5 "u10" (VString "ACD347") demo_full_room).1 in
  let out := (join_room 5 "u10" (VString "ACD347") demo_full_room).2 in
  (exists msg, out = [("u10", Error msg)])
  /\ rooms s' = rooms demo_full_room
  /\ adapter s' = adapter demo_full_room
  /\ sockets s' = sockets demo_full_room.
Proof.
  apply rejected_join_leaves_registry.
  right. right. eexists. split; [reflexivity |]. vm_compute. lia.
Defined.

Example full_room_error :
  (join_room 5 "u10" (VString "ACD347") demo_full_room).2
  = [("u10", Error "Room is full. Maximum 10 users allowed.")].
Proof. vm_compute. reflexivity. Qed.

(** C9.  The server as [server.js] builds it has no liveness endpoint: a
    GET request for [/health] passes [cors()] and the static files, does
    not match the one route [/], and is answered 404.  The route is
    shipped apart, as an optional addition; once it is registered after
    the existing routes, every GET request for [/health] is answered 200
    with a JSON object holding [status] (the string [healthy]), [uptime]
    (the process uptime) and [memory] (the heap in use rounded to the
    nearest MiB, followed by [MB]), and the answer depends on the process
    alone: not on the state of the relay.  Both as long as no file named
    [health] lies in the directory [public], which would be served
    instead. *)
Theorem health_reports_once_registered (e : Http.env) :
  "health" ∉ Http.public_dir e ->
  Http.respond Http.app e Http.probe = Http.not_found
  /\ let r := Http.respond Http.app_with_health e Http.probe in
     let mib := (inject_Z (Http.heapUsed (Http.proc e)) / 1024 / 1024)%Q in
     Http.statusCode r = 200
     /\ (exists o,
            Http.body r = Http.Json o
            /\ Http.field "status" o = Some (Http.JString "healthy")
            /\ Http.field "uptime" o
               = Some (Http.JNumber (Http.uptime (Http.proc e)))
            /\ exists mb : Z,
                 Http.field "memory" o
                 = Some (Http.JString (pretty mb +:+ "MB"))
                 /\ (inject_Z mb - (1 # 2) <= mib)%Q
                 /\ (mib < inject_Z mb + (1 # 2))%Q)
     /\ forall e',
          "health" ∉ Http.public_dir e' ->
          Http.proc e' = Http.proc e ->
          Http.respond Http.app_with_health e' Http.probe = r.
Proof.
  intros Hfile.
  assert (Hresp : forall e0, "health" ∉ Http.public_dir e0 ->
            Http.respond Http.app e0 Http.probe = Http.not_found
            /\ Http.respond Http.app_with_health e0 Http.probe
               = Http.health e0 Http.probe).
  { intros e0 H0. destruct (probe_passes_static e0 H0) as [Hc Hs].
    unfold Http.app_with_health, Http.app. cbn [app Http.respond].
    rewrite Hc, Hs. split; reflexivity. }
  destruct (Hresp e Hfile) as [Hshipped Hadded].
  split; [exact Hshipped |]. cbv zeta. rewrite Hadded.
  split; [reflexivity |]. split.
  - eexists. split; [reflexivity |]. split; [reflexivity |].
    split; [reflexivity |]. eexists. split; [reflexivity |].
    apply Math_round_nearest.
  - intros e' Hfile' Hproc. destruct (Hresp e' Hfile') as [_ ->].
    unfold Http.health. by rewrite Hproc.
Qed.

Lemma health_reports_once_registered_witness :
  Http.respond Http.app demo_env Http.probe = Http.not_found
  /\ Http.statusCode (Http.respond Http.app_with_health demo_env Http.probe)
     = 200.
Proof.
  assert (Hfile : "health" ∉ Http.public_dir demo_env).
  { cbn. intros Hin. apply list_elem_of_singleton in Hin. discriminate. }
  split.
  - exact (proj1 (health_reports_once_registered demo_env Hfile)).
  - exact (proj1 (proj2 (health_reports_once_registered demo_env Hfile))).
Defined.

(** The server as shipped answers a liveness probe with 404, where the
    claim has a success response with a JSON body. *)
Lemma health_missing_as_shipped :
  Http.respond Http.app demo_env Http.probe
  = {| Http.statusCode := 404; Http.body := Http.ErrorPage |}.
Proof. vm_compute. reflexivity. Qed.

Example health_added_answer :
  Http.respond Http.app_with_health demo_env Http.probe
  = {| Http.statusCode := 200;
       Http.body :=
         Http.Json [("status", Http.JString "healthy");
                    ("uptime", Http.JNumber (181 # 2));
                    ("memory", Http.JString "20MB")] |}.
Proof. vm_compute. reflexivity. Qed.

(** C10.  The rate-limit check comes first: a join the limiter admits
    records its timestamp whatever becomes of it, so a join then refused
    for its format or for a full room has used one of the 30 admissions of
    the window although the registry is unchanged. *)
Theorem rejected_join_consumes_budget now sid roomId s :
  (checkRateLimit now sid (rateLimit s)).1 = true ->
  let recent := filter (in_window now) (default [] (rateLimit s !! sid)) in
  let s' := (join_room now sid roomId s).1 in
  let out := (join_room now sid roomId s).2 in
  rateLimit s' !! sid = Some (recent ++ [now])
  /\ (malformed roomId \/ target_full roomId s ->
      (exists msg, out = [(sid, Error msg)]
                   /\ msg ≠ "Too many requests. Please wait."%string)
      /\ rooms s' = rooms s).
Proof.
  intros Hadm. cbv zeta.
  pose proof (checkRateLimit_spec now sid (rateLimit s)) as Hspec.
  cbv zeta in Hspec. rewrite Hspec in Hadm.
  assert (Hrl : (checkRateLimit now sid (rateLimit s)).2
                = <[sid := filter (in_window now) (default [] (rateLimit s !! sid))
                           ++ [now]]> (rateLimit s)).
  { rewrite Hspec. by case_decide. }
  assert (Hnd : ~ rate_denied now sid s).
  { unfold rate_denied. rewrite Hspec. by case_decide. }
  destruct (join_room_cases now sid roomId s)
    as [[Hd _] | [(_ & _ & msg & E & Hmsg) | [(_ & _ & _ & E) | (_ & H2 & H3 & raw & -> & _)]]].
  - done.
  - rewrite E. cbn [fst snd rateLimit set_rateLimit]. rewrite Hrl, lookup_insert_eq.
    split; [done |]. intros _. split; [by exists msg | done].
  - rewrite E. cbn [fst snd rateLimit set_rateLimit]. rewrite Hrl, lookup_insert_eq.
    split; [done |]. intros _. split; [| done]. eexists. split; [done | done].
  - split; [| tauto].
    unfold join_room. rewrite Hspec. case_decide; [| done]. cbn [negb].
    destruct raw as [|a raw]; [exfalso; apply H2; by left |].
    destruct (validateRoomId _) eqn:Hv; [| exfalso; apply H2; by right].
    cbn [negb]. destruct (room_full _ _) eqn:Hf.
    { exfalso. apply H3. by apply room_full_true in Hf. }
    cbn [fst rateLimit set_rateLimit]. by rewrite lookup_insert_eq.
Qed.

Lemma rejected_join_consumes_budget_witness :
  let s' := (join_room 5 "s1" (VString "abc123") init).1 in
  let out := (join_room 5 "s1" (VString "abc123") init).2 in
  rateLimit s' !! "s1" = Some ([] ++ [5])
  /\ (malformed (VString "abc123") \/ target_full (VString "abc123") init ->
      (exists msg, out = [("s1", Error msg)]
                   /\ msg ≠ "Too many requests. Please wait."%string)
      /\ rooms s' = rooms init).
Proof.
  apply (rejected_join_consumes_budget 5 "s1" (VString "abc123") init).
  reflexivity.
Defined.

(** Thirty malformed joins within a minute, then a well-formed one: the
    thirty-first is refused by the rate limiter. *)
Example malformed_joins_exhaust_budget :
  (run (fun k => Z.of_nat k)
     (replicate 30 (Message "s1" (JoinRoom (VString "abc123")))
      ++ [Message "s1" (JoinRoom (VString "ACD347"))]) init).2
  = replicate 30 ("s1", Error "Room code must be 6 alphanumeric characters.")
    ++ [("s1", Error "Too many requests. Please wait.")].
Proof. vm_compute. reflexivity. Qed.
